(** * jarvis: the line-addressed editing engine and its path sandbox

    A shallow embedding of the editing core of the jarvis MCP server
    (package [common] and the edit handlers of package [handlers]) together
    with the properties its design document states about it.

    Conventions of the embedding:
    - a Go [string] is a [string] of 8-bit characters (a byte sequence);
    - a Go [int] is a [Z]; subtraction and addition on it wrap to 64 bits
      where the source computes with it ([wrap64]);
    - a Go slice of strings is a [list string]; slicing out of range is a
      run-time panic, rendered as [None];
    - the file system, the clock, the working directory and the global
      configuration form an explicit [World] threaded through the handlers. *)

From stdpp Require Import gmap strings list fin_maps pretty sorting.
From Stdlib Require Import ZArith Lia Ascii.

Open Scope Z_scope.

(* ===================================================================== *)
(** * Definitions                                                         *)
(* ===================================================================== *)

(** ** Go integers *)

Definition wrap64 (x : Z) : Z := (x + 2 ^ 63) mod 2 ^ 64 - 2 ^ 63.

Definition is_int (x : Z) : Prop := - 2 ^ 63 <= x < 2 ^ 63.

Definition len {A} (l : list A) : Z := Z.of_nat (length l).

Definition slen (s : string) : Z := Z.of_nat (String.length s).

(** ** The part of Go's [strings] package the engine calls

    The functions are modelled for a non-empty separator or pattern, which
    is how every call site of the engine uses them. *)

Module strings.

Definition LF : string := String "010"%char "".
Definition CR : string := String "013"%char "".
Definition CRLF : string := String "013"%char (String "010"%char "").

(** [go_replace old new skip n s]: copy [s], substituting [new] for the
    non-overlapping occurrences of [old] met from left to right, at most
    [n] of them when [n >= 0]; [skip] counts the characters of a matched
    occurrence still to be dropped. *)
Fixpoint go_replace (old new : string) (skip : nat) (n : Z) (s : string)
    : string :=
  match s with
  | EmptyString => EmptyString
  | String c s' =>
      match skip with
      | S k => go_replace old new k n s'
      | O =>
          if n =? 0 then s
          else if String.prefix old s
          then new +:+ go_replace old new (String.length old - 1) (n - 1) s'
          else String c (go_replace old new O n s')
      end
  end.

(** strings.Replace(s, old, new, n), for a non-empty [old]. *)
Definition Replace (s old new : string) (n : Z) : string :=
  if String.eqb old new then s else go_replace old new O n s.

(** strings.ReplaceAll(s, old, new) = strings.Replace(s, old, new, -1). *)
Definition ReplaceAll (s old new : string) : string := Replace s old new (-1).

(** [go_count sep skip s]: number of non-overlapping occurrences. *)
Fixpoint go_count (sep : string) (skip : nat) (s : string) : Z :=
  match s with
  | EmptyString => 0
  | String c s' =>
      match skip with
      | S k => go_count sep k s'
      | O =>
          if String.prefix sep s
          then 1 + go_count sep (String.length sep - 1) s'
          else go_count sep O s'
      end
  end.

(** strings.Count(s, substr), for a non-empty [substr]. *)
Definition Count (s substr : string) : Z := go_count substr O s.

(** [go_split sep skip s]: the pieces of [s] between the occurrences of
    [sep]; the head of the result is the piece being read. *)
Fixpoint go_split (sep : string) (skip : nat) (s : string) : list string :=
  match s with
  | EmptyString => [EmptyString]
  | String c s' =>
      match skip with
      | S k => go_split sep k s'
      | O =>
          if String.prefix sep s
          then EmptyString :: go_split sep (String.length sep - 1) s'
          else match go_split sep O s' with
               | piece :: rest => String c piece :: rest
               | [] => [String c EmptyString]
               end
      end
  end.

(** strings.Split(s, sep), for a non-empty [sep]: a strict split, one
    more piece than there are separators. *)
Definition Split (s sep : string) : list string := go_split sep O s.

(** strings.Join(elems, sep). *)
Fixpoint Join (elems : list string) (sep : string) : string :=
  match elems with
  | [] => EmptyString
  | [e] => e
  | e :: rest => e +:+ sep +:+ Join rest sep
  end.

(** strings.Index(s, substr): byte offset of the first occurrence,
    or -1. *)
Fixpoint Index (s substr : string) : Z :=
  if String.prefix substr s then 0
  else match s with
       | EmptyString => -1
       | String _ s' =>
           let i := Index s' substr in
           if i <? 0 then -1 else 1 + i
       end.

End strings.

(** ** LineBuffer: [SplitLines] and [JoinLines] *)

(** The design document's [normalize], following its words: "CR/LF and CR
    collapse to a single logical separator".  It reads the text once, left
    to right, and is compared below with the two replacement passes of
    [SplitLines]. *)
Fixpoint normalize_spec (t : string) : string :=
  match t with
  | EmptyString => EmptyString
  | String c r =>
      if Ascii.eqb c "013"
      then match r with
           | String c' r' =>
               if Ascii.eqb c' "010"
               then String "010" (normalize_spec r')
               else String "010" (normalize_spec r)
           | EmptyString => String "010" EmptyString
           end
      else String c (normalize_spec r)
  end.

Definition SplitLines (content : string) : list string :=
  let content := strings.ReplaceAll content strings.CRLF strings.LF in
  let content := strings.ReplaceAll content strings.CR strings.LF in
  strings.Split content strings.LF.

Definition JoinLines (lines : list string) : string :=
  strings.Join lines strings.LF.

(** ** Requests: package [types] *)

Module types.

Record EditOperation : Type := mkEditOperation {
  StartLine : Z;
  EndLine : Z;
  Replacement : string;
  Description : string
}.

Record TextInsertion : Type := mkTextInsertion {
  Line : Z;
  Content : string;
  Before : bool
}.

Record FileEditRequest : Type := mkFileEditRequest {
  Path : string;
  Operations : list EditOperation;
  CreateBackup : bool
}.

End types.

Import types.

(** ** OperationValidator: [OperationsOverlap], [ValidateEditOperations] *)

Definition OperationsOverlap (op1 op2 : EditOperation) : bool :=
  negb ((EndLine op1 <? StartLine op2) || (EndLine op2 <? StartLine op1)).

(** The four errors [ValidateEditOperations] builds with [fmt.Errorf]; the
    operation numbers they carry are 1-based. *)
Inductive ValidationError : Type :=
  | NotPositive (i : Z)
  | ExceedsLength (i : Z) (n : Z)
  | StartAfterEnd (i : Z) (s e : Z)
  | Overlapping (i j : Z).

(** The text of each error, as [err.Error()] gives it. *)
Definition ErrorString (e : ValidationError) : string :=
  match e with
  | NotPositive i =>
      "operation " +:+ pretty i +:+ ": line numbers must be positive"
  | ExceedsLength i n =>
      "operation " +:+ pretty i +:+ ": line numbers exceed file length ("
        +:+ pretty n +:+ " lines)"
  | StartAfterEnd i s e =>
      "operation " +:+ pretty i +:+ ": start_line (" +:+ pretty s
        +:+ ") > end_line (" +:+ pretty e +:+ ")"
  | Overlapping i j =>
      "operations " +:+ pretty i +:+ " and " +:+ pretty j +:+ " overlap"
  end.

(** First loop of [ValidateEditOperations]; [i] is the 0-based index of the
    head of [operations]. *)
Fixpoint check_ranges (n : Z) (i : Z) (operations : list EditOperation)
    : option ValidationError :=
  match operations with
  | [] => None
  | op :: rest =>
      if (StartLine op <? 1) || (EndLine op <? 1)
      then Some (NotPositive (i + 1))
      else if (StartLine op >? n) || (EndLine op >? n)
      then Some (ExceedsLength (i + 1) n)
      else if StartLine op >? EndLine op
      then Some (StartAfterEnd (i + 1) (StartLine op) (EndLine op))
      else check_ranges n (i + 1) rest
  end.

(** Inner loop of the overlap check: [op] is [operations[i]], the head of
    [later] is [operations[j]]. *)
Fixpoint check_overlap_with (op : EditOperation) (i j : Z)
    (later : list EditOperation) : option ValidationError :=
  match later with
  | [] => None
  | op' :: rest =>
      if OperationsOverlap op op'
      then Some (Overlapping (i + 1) (j + 1))
      else check_overlap_with op i (j + 1) rest
  end.

(** Outer loop of the overlap check. *)
Fixpoint check_overlaps (i : Z) (operations : list EditOperation)
    : option ValidationError :=
  match operations with
  | [] => None
  | op :: rest =>
      match check_overlap_with op i (i + 1) rest with
      | Some e => Some e
      | None => check_overlaps (i + 1) rest
      end
  end.

(** [None] is Go's [nil] error. *)
Definition ValidateEditOperations (lines : list string)
    (operations : list EditOperation) : option ValidationError :=
  match check_ranges (len lines) 0 operations with
  | Some e => Some e
  | None => check_overlaps 0 operations
  end.

(** The error classes of the design document, and the class of each error
    of the code. *)
Inductive ErrorClass : Type := InvalidRange | OutOfBounds | OverlappingOperations.

Definition error_class (e : ValidationError) : ErrorClass :=
  match e with
  | NotPositive _ => InvalidRange
  | StartAfterEnd _ _ _ => InvalidRange
  | ExceedsLength _ _ => OutOfBounds
  | Overlapping _ _ => OverlappingOperations
  end.

(** An operation passes the three per-operation checks on a buffer of [n]
    lines. *)
Definition op_in_range (n : Z) (op : EditOperation) : Prop :=
  1 <= StartLine op /\ 1 <= EndLine op /\ StartLine op <= EndLine op /\
  StartLine op <= n /\ EndLine op <= n.

(** The inclusive ranges of two operations share no line. *)
Definition disjoint_ranges (a b : EditOperation) : Prop :=
  EndLine a < StartLine b \/ EndLine b < StartLine a.

(** A set of operations that is valid for a buffer of [n] lines, stated
    without reference to the order of the request. *)
Definition valid_set (n : Z) (ops : list EditOperation) : Prop :=
  Forall (op_in_range n) ops /\ NoDup ops /\
  (forall x y, x ∈ ops -> y ∈ ops -> x <> y -> disjoint_ranges x y).

(** ** OperationScheduler: the sort *)

(** [l] is in descending order of [key]: no element is smaller than a
    later one. *)
Definition descending {A} (key : A -> Z) (l : list A) : Prop :=
  forall (a b : nat) x y,
    (a < b)%nat -> l !! a = Some x -> l !! b = Some y -> key y <= key x.

(** The first [k] positions of [l] are final: each holds an element that
    no later element exceeds. *)
Definition settled {A} (key : A -> Z) (k : nat) (l : list A) : Prop :=
  forall (a b : nat) x y,
    (a < k)%nat -> (a < b)%nat ->
    l !! a = Some x -> l !! b = Some y -> key y <= key x.

Section ExchangeSort.
Context {A : Type} (key : A -> Z).

(** Body of the inner loop:
    [if sorted[i].key < sorted[j].key { swap sorted[i], sorted[j] }]. *)
Definition swap_if_less (i : nat) (sorted : list A) (j : nat) : list A :=
  match sorted !! i, sorted !! j with
  | Some a, Some b =>
      if key a <? key b then <[i:=b]> (<[j:=a]> sorted) else sorted
  | _, _ => sorted
  end.

(** [for j := i + 1; j < len(sorted); j++ { ... }] *)
Definition inner_loop (sorted : list A) (i : nat) : list A :=
  foldl (swap_if_less i) sorted (seq (S i) (length sorted - S i)).

(** [for i := 0; i < len(sorted)-1; i++ { ... }] *)
Definition exchange_sort (sorted : list A) : list A :=
  foldl inner_loop sorted (seq 0 (length sorted - 1)).
End ExchangeSort.

(** The copy made by [SortOperationsByLine] is the list itself. *)
Definition SortOperationsByLine (operations : list EditOperation)
    : list EditOperation :=
  exchange_sort StartLine operations.

(** The in-place sort at the head of [ApplyTextInsertions]. *)
Definition sort_insertions (insertions : list TextInsertion)
    : list TextInsertion :=
  exchange_sort Line insertions.

(** ** OperationScheduler: the splice

    [s[:hi]] and [s[lo:]] with the bounds checked against the length.  For
    operations that passed validation no bound exceeds the length of the
    buffer, so its capacity plays no part; a bound between length and
    capacity, which Go accepts once [append] has grown a buffer, is
    reported as a panic here. *)
Definition slice_to (s : list string) (hi : Z) : option (list string) :=
  if (0 <=? hi) && (hi <=? len s) then Some (take (Z.to_nat hi) s) else None.

Definition slice_from (s : list string) (lo : Z) : option (list string) :=
  if (0 <=? lo) && (lo <=? len s) then Some (drop (Z.to_nat lo) s) else None.

(** Body of the application loop of [HandleEditFile] and
    [HandleEditMultipleFiles].  The capacity handed to [make] is only an
    allocation hint: it is non-negative whenever both slice expressions
    are in range, so the allocation adds no panic of its own and is left
    out. *)
Definition apply_operation (resultLines : list string) (op : EditOperation)
    : option (list string) :=
  let startIdx := wrap64 (StartLine op - 1) in
  let endIdx := EndLine op in
  head ← slice_to resultLines startIdx;
  tail ← slice_from resultLines endIdx;
  Some (head ++ SplitLines (Replacement op) ++ tail).

(** [for _, op := range sortedOps { ... }] *)
Fixpoint apply_operations (resultLines : list string)
    (sortedOps : list EditOperation) : option (list string) :=
  match sortedOps with
  | [] => Some resultLines
  | op :: rest =>
      newLines ← apply_operation resultLines op;
      apply_operations newLines rest
  end.

(** The design document's [slice(start, end)], following its words:
    "1-based inclusive".  [p] is the 1-based position of the head. *)
Fixpoint slice_spec_at (p : Z) (first last : Z) (lines : list string)
    : list string :=
  match lines with
  | [] => []
  | l :: rest =>
      (if (first <=? p) && (p <=? last) then [l] else [])
        ++ slice_spec_at (p + 1) first last rest
  end.

Definition slice_spec (first last : Z) (lines : list string) : list string :=
  slice_spec_at 1 first last lines.

(** ** OperationScheduler: [ApplyTextInsertions] *)

(** Body of the insertion loop: [inl] carries the new buffer, [inr] the
    text of the error returned for an invalid line number; [None] is a
    slicing panic. *)
Definition apply_insertion (lines : list string) (insertion : TextInsertion)
    : option (list string + string) :=
  let line := Line insertion in
  if (line <? 1) || (line >? wrap64 (len lines + 1))
  then Some (inr ("invalid line number: " +:+ pretty line +:+ " (file has "
                    +:+ pretty (len lines) +:+ " lines)"))
  else
    let insertLines := SplitLines (Content insertion) in
    if Before insertion
    then
      head ← slice_to lines (wrap64 (line - 1));
      tail ← slice_from lines (wrap64 (line - 1));
      Some (inl (head ++ insertLines ++ tail))
    else
      head ← slice_to lines line;
      tail ← slice_from lines line;
      Some (inl (head ++ insertLines ++ tail)).

Fixpoint apply_insertions (lines : list string)
    (insertions : list TextInsertion) : option (list string + string) :=
  match insertions with
  | [] => Some (inl lines)
  | insertion :: rest =>
      match apply_insertion lines insertion with
      | Some (inl newLines) => apply_insertions newLines rest
      | other => other
      end
  end.

(** The returned pair is the text and the error ([None] for [nil]); the
    outer [None] is a panic.  [adjustLineNumbers] is not read by the
    function. *)
Definition ApplyTextInsertions (content : string)
    (insertions : list TextInsertion) (adjustLineNumbers : bool)
    : option (string * option string) :=
  if len insertions =? 0 then Some (content, None)
  else
    let lines := SplitLines content in
    match apply_insertions lines (sort_insertions insertions) with
    | Some (inl lines) => Some (JoinLines lines, None)
    | Some (inr err) => Some (content, Some err)
    | None => None
    end.

(** ** The world the engine runs in

    The operating system is outside the repository; the handlers see it
    through [os.ReadFile], [os.WriteFile], [os.Getwd] and [time.Now].  A
    path names a file by its spelling: [files] maps a path to the bytes
    stored under it, [noread] and [nowrite] are the paths on which the
    system refuses to open a file for reading and for writing, [now] is the
    Unix time and [cwd] the working directory ([None] when [os.Getwd]
    fails).  [AllowedDirectories] is the allow-list of the global
    configuration. *)
Record World : Type := mkWorld {
  files : gmap string string;
  noread : gset string;
  nowrite : gset string;
  now : Z;
  cwd : option string;
  AllowedDirectories : list string
}.

Definition set_files (w : World) (fs : gmap string string) : World :=
  mkWorld fs (noread w) (nowrite w) (now w) (cwd w) (AllowedDirectories w).

Module os.

(** os.ReadFile: the content, or the text of the error. *)
Definition ReadFile (w : World) (name : string) : string + string :=
  if decide (name ∈ noread w)
  then inr ("open " +:+ name +:+ ": permission denied")
  else match files w !! name with
       | Some data => inl data
       | None => inr ("open " +:+ name +:+ ": no such file or directory")
       end.

(** os.WriteFile: creates the file or replaces its whole content; the
    world on success, or the text of the error. *)
Definition WriteFile (w : World) (name : string) (data : string)
    : World + string :=
  if decide (name ∈ nowrite w)
  then inr ("open " +:+ name +:+ ": permission denied")
  else inl (set_files w (<[name := data]> (files w))).

End os.

(** ** PathSandbox: [IsSubPath], [IsPathAllowed] *)

Module filepath.

Definition Separator : ascii := "/"%char.

(** One element of the path met by [Clean]; [stack] holds the elements
    kept so far, innermost first. *)
Definition clean_step (rooted : bool) (stack : list string) (elem : string)
    : list string :=
  if decide (elem = "") then stack
  else if decide (elem = ".") then stack
  else if decide (elem = "..") then
    match stack with
    | top :: below => if decide (top = "..") then elem :: stack else below
    | [] => if rooted then [] else [elem]
    end
  else elem :: stack.

(** filepath.Clean on Unix, element by element: empty and [.] elements
    are dropped, [..] removes the element before it, or is dropped at
    the root, or is kept at the head of a relative path. *)
Definition Clean (path : string) : string :=
  if decide (path = "") then "."
  else
    let rooted := String.prefix "/" path in
    let stack := foldl (clean_step rooted) [] (strings.Split path "/") in
    let out := strings.Join (rev stack) "/" in
    if rooted then "/" +:+ out
    else if decide (out = "") then "." else out.

(** filepath.Join(wd, path). *)
Definition Join2 (wd path : string) : string :=
  if decide (wd = "") then
    if decide (path = "") then "" else Clean path
  else Clean (wd +:+ "/" +:+ path).

(** filepath.Abs on Unix; [None] when the working directory is needed
    and cannot be had. *)
Definition Abs (w : World) (path : string) : option string :=
  if String.prefix "/" path then Some (Clean path)
  else match cwd w with
       | Some wd => Some (Join2 wd path)
       | None => None
       end.

End filepath.

(** [s[len(s)-1]]; [None] is the index-out-of-range panic on an empty
    string. *)
Definition last_byte (s : string) : option ascii :=
  String.get (String.length s - 1) s.

(** [None] is a panic. *)
Definition IsSubPath (path parent : string) : option bool :=
  c ← last_byte parent;
  let parent :=
    if Ascii.eqb c filepath.Separator then parent
    else parent +:+ String filepath.Separator "" in
  c' ← last_byte path;
  let path :=
    if Ascii.eqb c' filepath.Separator then path
    else path +:+ String filepath.Separator "" in
  Some ((String.length parent <=? String.length path)%nat
        && String.eqb (String.substring 0 (String.length parent) path) parent).

(** The loop of [IsPathAllowed] over the allow-list. *)
Fixpoint allowed_in (w : World) (absPath : string) (dirs : list string)
    : option bool :=
  match dirs with
  | [] => Some false
  | allowedDir :: rest =>
      match filepath.Abs w allowedDir with
      | None => allowed_in w absPath rest
      | Some allowedAbs =>
          match IsSubPath absPath allowedAbs with
          | None => None
          | Some true => Some true
          | Some false => allowed_in w absPath rest
          end
      end
  end.

Definition IsPathAllowed (w : World) (path : string) : option bool :=
  match filepath.Abs w path with
  | None => Some false
  | Some absPath => allowed_in w absPath (AllowedDirectories w)
  end.

(** The containment the design document asks for: [a] is the directory
    [d] itself or lies below it, the part of [a] that follows [d] starting
    at a separator. *)
Definition within (a d : string) : Prop :=
  a = d \/ (exists rest, a = d +:+ "/" +:+ rest) \/
  (d = "/" /\ exists rest, a = "/" +:+ rest).

(** No byte of [s] is the separator. *)
Fixpoint has_no_sep (s : string) : bool :=
  match s with
  | EmptyString => true
  | String c s' => negb (Ascii.eqb c filepath.Separator) && has_no_sep s'
  end.

(** The shape of a cleaned path: not empty, and ending in a separator
    only when it is the root. *)
Definition clean_shape (s : string) : Prop :=
  s <> "" /\ (s = "/" \/ last_byte s <> Some filepath.Separator).

(** ** BackupManager: [CreateBackup] *)

Definition backup_path (filePath : string) (t : Z) : string :=
  filePath +:+ ".backup." +:+ pretty t.

(** The result is the backup path or the text of the error. *)
Definition CreateBackup (w : World) (filePath : string)
    : (string + string) * World :=
  let backupPath := backup_path filePath (now w) in
  match os.ReadFile w filePath with
  | inr err => (inr ("failed to read original file: " +:+ err), w)
  | inl content =>
      match os.WriteFile w backupPath content with
      | inr err => (inr ("failed to create backup: " +:+ err), w)
      | inl w' => (inl backupPath, w')
      end
  end.

(** ** DiffPreview: [GenerateEditPreview] *)

(** [lines[i]]; [None] is the index-out-of-range panic. *)
Definition index_line (lines : list string) (i : Z) : option string :=
  if (i <? 0) || (len lines <=? i) then None else lines !! Z.to_nat i.

(** [for i := op.StartLine - 1; i < op.EndLine && i < len(lines); i++].
    The loop body runs at most [len(lines)] times; [fuel] is taken one
    larger, and running out of it is reported like a panic. *)
Fixpoint preview_original (fuel : nat) (lines : list string) (i endLine : Z)
    : option string :=
  match fuel with
  | O => None
  | S fuel =>
      if (i <? endLine) && (i <? len lines)
      then
        l ← index_line lines i;
        rest ← preview_original fuel lines (wrap64 (i + 1)) endLine;
        Some ("  " +:+ pretty (wrap64 (i + 1)) +:+ ": " +:+ l +:+ strings.LF
                +:+ rest)
      else Some ""
  end.

(** [for i, line := range replacementLines]. *)
Fixpoint preview_replacement (startLine i : Z) (replacementLines : list string)
    : string :=
  match replacementLines with
  | [] => ""
  | line :: rest =>
      "  " +:+ pretty (wrap64 (startLine + i)) +:+ ": " +:+ line
        +:+ strings.LF +:+ preview_replacement startLine (i + 1) rest
  end.

Definition preview_operation (lines : list string) (op : EditOperation)
    : option string :=
  original ← preview_original (S (length lines)) lines
               (wrap64 (StartLine op - 1)) (EndLine op);
  Some ("Lines " +:+ pretty (StartLine op) +:+ "-" +:+ pretty (EndLine op)
          +:+ ":" +:+ strings.LF
          +:+ "- Original:" +:+ strings.LF +:+ original
          +:+ "+ Replacement:" +:+ strings.LF
          +:+ preview_replacement (StartLine op) 0
                (strings.Split (Replacement op) strings.LF)
          +:+ (if decide (Description op = "") then ""
               else "  Description: " +:+ Description op +:+ strings.LF)
          +:+ strings.LF).

(** [None] is a panic. *)
Fixpoint GenerateEditPreview (lines : list string)
    (operations : list EditOperation) : option string :=
  match operations with
  | [] => Some ""
  | op :: rest =>
      text ← preview_operation lines op;
      more ← GenerateEditPreview lines rest;
      Some (text +:+ more)
  end.

(** ** EditEngine: the handlers

    A handler receives the parameters of the request already parsed and
    returns its result with the world it leaves behind. *)

Inductive CallToolResult : Type :=
  | NewToolResultText (text : string)
  | NewToolResultError (text : string)
  | Panic.

(** The non-atomic loop of [HandleEditFile]: one write after every
    operation; [None] when the loop runs to its end. *)
Fixpoint apply_and_write (w : World) (path : string) (resultLines : list string)
    (i : Z) (sortedOps : list EditOperation) : option CallToolResult * World :=
  match sortedOps with
  | [] => (None, w)
  | op :: rest =>
      match apply_operation resultLines op with
      | None => (Some Panic, w)
      | Some newLines =>
          match os.WriteFile w path (JoinLines newLines) with
          | inr err =>
              (Some (NewToolResultError
                       ("Failed to write file at operation " +:+ pretty (i + 1)
                          +:+ ": " +:+ err)), w)
          | inl w' => apply_and_write w' path newLines (i + 1) rest
          end
      end
  end.

Definition HandleEditFile (w : World) (path : string)
    (operations : list EditOperation)
    (createBackup validateOperations showPreview atomic : bool)
    : CallToolResult * World :=
  match IsPathAllowed w path with
  | None => (Panic, w)
  | Some false => (NewToolResultError "Access to this path is not allowed", w)
  | Some true =>
  match os.ReadFile w path with
  | inr err => (NewToolResultError ("Failed to read file: " +:+ err), w)
  | inl originalContent =>
  let lines := SplitLines originalContent in
  match (if validateOperations then ValidateEditOperations lines operations
         else None) with
  | Some err =>
      (NewToolResultError ("Operation validation failed: " +:+ ErrorString err),
       w)
  | None =>
  let sortedOps := SortOperationsByLine operations in
  if showPreview then
    match GenerateEditPreview lines sortedOps with
    | None => (Panic, w)
    | Some preview =>
        (NewToolResultText ("Preview of changes for " +:+ path +:+ ":"
                              +:+ strings.LF +:+ preview), w)
    end
  else
  match (if createBackup then CreateBackup w path else (inl "", w)) with
  | (inr err, w) =>
      (NewToolResultError ("Failed to create backup: " +:+ err), w)
  | (inl _, w) =>
  let done :=
    NewToolResultText ("Successfully applied " +:+ pretty (len operations)
                         +:+ " operations to " +:+ path) in
  if atomic then
    match apply_operations lines sortedOps with
    | None => (Panic, w)
    | Some resultLines =>
        match os.WriteFile w path (JoinLines resultLines) with
        | inr err => (NewToolResultError ("Failed to write file: " +:+ err), w)
        | inl w => (done, w)
        end
    end
  else
    match apply_and_write w path lines 0 sortedOps with
    | (Some result, w) => (result, w)
    | (None, w) => (done, w)
    end
  end end end end.

(** The validation pass of [HandleEditMultipleFiles]: [inl] is the result
    returned at once, [inr] the errors collected. *)
Fixpoint validate_files (w : World) (atomic : bool) (i : Z)
    (fileRequests : list FileEditRequest) (errors : list string)
    : CallToolResult + list string :=
  match fileRequests with
  | [] => inr errors
  | fileReq :: rest =>
      match IsPathAllowed w (Path fileReq) with
      | None => inl Panic
      | Some false =>
          let err := "Access to path " +:+ Path fileReq +:+ " (file "
                       +:+ pretty (i + 1) +:+ ") is not allowed" in
          if atomic then inl (NewToolResultError err)
          else validate_files w atomic (i + 1) rest (errors ++ [err])
      | Some true =>
          match os.ReadFile w (Path fileReq) with
          | inr err =>
              let errMsg := "File " +:+ Path fileReq +:+ " (file "
                              +:+ pretty (i + 1) +:+ ") is not accessible: "
                              +:+ err in
              if atomic then inl (NewToolResultError errMsg)
              else validate_files w atomic (i + 1) rest (errors ++ [errMsg])
          | inl content =>
              let lines := SplitLines content in
              match ValidateEditOperations lines (Operations fileReq) with
              | Some err =>
                  let errMsg := "Invalid operations in file " +:+ Path fileReq
                                  +:+ ": " +:+ ErrorString err in
                  if atomic then inl (NewToolResultError errMsg)
                  else validate_files w atomic (i + 1) rest (errors ++ [errMsg])
              | None => validate_files w atomic (i + 1) rest errors
              end
          end
      end
  end.

(** How the processing loop of [HandleEditMultipleFiles] goes on. *)
Inductive Flow : Type :=
  | Continue (w : World) (results errors : list string)
  | Break (w : World) (results errors : list string)
  | Return (result : CallToolResult) (w : World).

Definition flow_world (f : Flow) : World :=
  match f with
  | Continue w _ _ | Break w _ _ | Return _ w => w
  end.

(** The three lines that follow every failure in the processing loop:
    return under [atomic], else record the error and break or continue. *)
Definition file_failed (atomic continueOnError : bool) (w : World)
    (results errors : list string) (errMsg : string) : Flow :=
  if atomic then Return (NewToolResultError errMsg) w
  else if continueOnError then Continue w results (errors ++ [errMsg])
  else Break w results (errors ++ [errMsg]).

(** Body of the processing loop for one file. *)
Definition process_file (atomic dryRun continueOnError : bool) (w : World)
    (i : Z) (fileReq : FileEditRequest) (results errors : list string) : Flow :=
  let failed := file_failed atomic continueOnError in
  match IsPathAllowed w (Path fileReq) with
  | None => Return Panic w
  | Some false =>
      failed w results errors
        ("Access to path " +:+ Path fileReq +:+ " (file " +:+ pretty (i + 1)
           +:+ ") is not allowed")
  | Some true =>
  match os.ReadFile w (Path fileReq) with
  | inr err =>
      failed w results errors
        ("Failed to read file " +:+ Path fileReq +:+ ": " +:+ err)
  | inl content =>
  let lines := SplitLines content in
  if dryRun then
    match GenerateEditPreview lines (Operations fileReq) with
    | None => Return Panic w
    | Some preview =>
        Continue w
          (results ++ ["File: " +:+ Path fileReq +:+ strings.LF +:+ preview])
          errors
    end
  else
  match (if types.CreateBackup fileReq then CreateBackup w (Path fileReq)
         else (inl "", w)) with
  | (inr err, w) =>
      failed w results errors
        ("Failed to create backup for " +:+ Path fileReq +:+ ": " +:+ err)
  | (inl _, w) =>
  let sortedOps := SortOperationsByLine (Operations fileReq) in
  match apply_operations lines sortedOps with
  | None => Return Panic w
  | Some resultLines =>
  match os.WriteFile w (Path fileReq) (JoinLines resultLines) with
  | inr err =>
      failed w results errors
        ("Failed to write file " +:+ Path fileReq +:+ ": " +:+ err)
  | inl w =>
      Continue w
        (results ++ ["Successfully applied "
                       +:+ pretty (len (Operations fileReq))
                       +:+ " operations to " +:+ Path fileReq])
        errors
  end end end end end.

(** [for i, fileReq := range fileRequests { ... }] *)
Fixpoint process_files (atomic dryRun continueOnError : bool) (w : World)
    (i : Z) (fileRequests : list FileEditRequest) (results errors : list string)
    : Flow :=
  match fileRequests with
  | [] => Break w results errors
  | fileReq :: rest =>
      match process_file atomic dryRun continueOnError w i fileReq
              results errors with
      | Continue w results errors =>
          process_files atomic dryRun continueOnError w (i + 1) rest
            results errors
      | stop => stop
      end
  end.

(** The text built at the end of [HandleEditMultipleFiles]. *)
Definition batch_report (dryRun : bool) (results errors : list string)
    : string :=
  (if dryRun then "DRY RUN - Preview of changes:" +:+ strings.LF +:+ strings.LF
   else "")
  +:+ foldr (fun res acc => res +:+ strings.LF +:+ acc) "" results
  +:+ (if 0 <? len errors
       then strings.LF +:+ "Errors encountered:" +:+ strings.LF
            +:+ foldr (fun err acc => "- " +:+ err +:+ strings.LF +:+ acc)
                  "" errors
       else "").

Definition HandleEditMultipleFiles (w : World)
    (fileRequests : list FileEditRequest)
    (atomic dryRun continueOnError validateAll : bool)
    : CallToolResult * World :=
  match (if validateAll || atomic
         then validate_files w atomic 0 fileRequests []
         else inr []) with
  | inl result => (result, w)
  | inr errors =>
      if (validateAll || atomic) && atomic && (0 <? len errors)
      then (NewToolResultError
              ("Validation failed: " +:+ strings.Join errors "; "), w)
      else
        match process_files atomic dryRun continueOnError w 0 fileRequests
                [] errors with
        | Return result w => (result, w)
        | Continue w results errors
        | Break w results errors =>
            (NewToolResultText (batch_report dryRun results errors), w)
        end
  end.

(** ** [ReplaceText] and [HandleReplaceText] *)

(** [s[:k]] and [s[k:]] on a string; [None] is the out-of-range panic. *)
Definition str_to (s : string) (k : Z) : option string :=
  if (0 <=? k) && (k <=? slen s)
  then Some (String.substring 0 (Z.to_nat k) s) else None.

Definition str_from (s : string) (k : Z) : option string :=
  if (0 <=? k) && (k <=? slen s)
  then Some (String.substring (Z.to_nat k) (String.length s - Z.to_nat k) s)
  else None.

Section ReplaceText.

(** strings.ToLower, which follows the Unicode tables of the Go
    library, is a parameter of the model. *)
Variable ToLower : string -> string.

(** The loop of the case-insensitive branch.  Every turn that does not
    leave the loop shortens [remaining], because [find] is not empty;
    [fuel] bounds the turns and running out of it is reported like a
    panic. *)
Fixpoint replace_insensitive (fuel : nat) (find findLower replace : string)
    (maxReplacements : Z) (remaining result : string) (count : Z)
    : option (string * Z) :=
  match fuel with
  | O => None
  | S fuel =>
      let lowerRemaining := ToLower remaining in
      let index := strings.Index lowerRemaining findLower in
      if (index =? -1) || ((maxReplacements >? 0) && (count >=? maxReplacements))
      then Some (result +:+ remaining, count)
      else
        before ← str_to remaining index;
        after ← str_from remaining (index + slen find);
        replace_insensitive fuel find findLower replace maxReplacements
          after (result +:+ before +:+ replace) (count + 1)
  end.

(** The triple returned is (text, count, error), [None] in the last
    place for a [nil] error; the outer [None] is a panic. *)
Definition ReplaceText (content find replace : string)
    (regex caseSensitive wholeWord : bool) (maxReplacements : Z)
    : option (string * Z * option string) :=
  if decide (find = "")
  then Some (content, 0, Some "find pattern cannot be empty")
  else if negb regex && negb wholeWord && caseSensitive then
    let count := strings.Count content find in
    let count :=
      if (maxReplacements >? 0) && (count >? maxReplacements)
      then maxReplacements else count in
    let result := strings.Replace content find replace maxReplacements in
    Some (result, count, None)
  else if negb regex && negb wholeWord && negb caseSensitive then
    match replace_insensitive (S (String.length content)) find (ToLower find)
            replace maxReplacements content "" 0 with
    | Some (result, count) => Some (result, count, None)
    | None => None
    end
  else
    Some (content, 0,
          Some "regex and whole word replacements not implemented in this simplified version").

Definition HandleReplaceText (w : World) (path find replace : string)
    (regex caseSensitive wholeWord : bool) (maxReplacements : Z)
    (createBackup : bool) : CallToolResult * World :=
  match IsPathAllowed w path with
  | None => (Panic, w)
  | Some false => (NewToolResultError "Access to this path is not allowed", w)
  | Some true =>
  match os.ReadFile w path with
  | inr err => (NewToolResultError ("Failed to read file: " +:+ err), w)
  | inl originalContent =>
  match (if createBackup then CreateBackup w path else (inl "", w)) with
  | (inr err, w) =>
      (NewToolResultError ("Failed to create backup: " +:+ err), w)
  | (inl _, w) =>
  match ReplaceText originalContent find replace regex caseSensitive
          wholeWord maxReplacements with
  | None => (Panic, w)
  | Some (_, _, Some err) =>
      (NewToolResultError ("Failed to replace text: " +:+ err), w)
  | Some (newContent, count, None) =>
      match os.WriteFile w path newContent with
      | inr err => (NewToolResultError ("Failed to write file: " +:+ err), w)
      | inl w =>
          (NewToolResultText ("Replaced " +:+ pretty count
                                +:+ " occurrences in " +:+ path), w)
      end
  end end end end.

End ReplaceText.

(** ** Further vocabulary for the line buffer and the batch loop *)

(** No byte of [s] is a line feed or a carriage return. *)
Fixpoint has_no_line_break (s : string) : bool :=
  match s with
  | EmptyString => true
  | String c s' =>
      negb (Ascii.eqb c "010") && negb (Ascii.eqb c "013")
        && has_no_line_break s'
  end.

(** What a turn of the processing loop decides, apart from the texts it
    collects: how the loop goes on, the world, and the result when it
    returns. *)
Definition flow_kind (f : Flow) : nat * World * option CallToolResult :=
  match f with
  | Continue w _ _ => (0%nat, w, None)
  | Break w _ _ => (1%nat, w, None)
  | Return result w => (2%nat, w, Some result)
  end.

(** ** The other editing handlers and their helpers *)

(** [ValidateLineRange]: [None] is the [nil] error, else the text of the
    error. *)
Definition ValidateLineRange (startLine endLine totalLines : Z)
    : option string :=
  if startLine <? 1
  then Some ("start line must be positive, got " +:+ pretty startLine)
  else if endLine <? 1
  then Some ("end line must be positive, got " +:+ pretty endLine)
  else if startLine >? totalLines
  then Some ("start line " +:+ pretty startLine +:+ " exceeds file length ("
               +:+ pretty totalLines +:+ " lines)")
  else if endLine >? totalLines
  then Some ("end line " +:+ pretty endLine +:+ " exceeds file length ("
               +:+ pretty totalLines +:+ " lines)")
  else if startLine >? endLine
  then Some ("start line (" +:+ pretty startLine
               +:+ ") cannot be greater than end line (" +:+ pretty endLine
               +:+ ")")
  else None.

Definition GenerateCharacterDiff (original replacement : string) : string :=
  if String.eqb original replacement then "No changes"
  else "- Original:" +:+ strings.LF +:+ original +:+ strings.LF
         +:+ "+ Replacement:" +:+ strings.LF +:+ replacement +:+ strings.LF.

(** The loop of filepath.Ext: from the last byte backwards, up to the
    first separator.  It takes at most [len(path)] turns, which is the
    [fuel] given; running out of it is leaving the loop. *)
Fixpoint ext_loop (fuel : nat) (path : string) (i : Z) : string :=
  match fuel with
  | O => ""
  | S fuel =>
      if i <? 0 then ""
      else match String.get (Z.to_nat i) path with
           | None => ""
           | Some c =>
               if Ascii.eqb c filepath.Separator then ""
               else if Ascii.eqb c "."
               then String.substring (Z.to_nat i)
                      (String.length path - Z.to_nat i) path
               else ext_loop fuel path (i - 1)
           end
  end.

(** [filepath.Ext(filePath)]. *)
Definition GetFileExtension (filePath : string) : string :=
  ext_loop (String.length filePath) filePath (slen filePath - 1).

Definition textExtensions : list string :=
  [".txt"; ".md"; ".json"; ".xml"; ".yaml"; ".yml";
   ".go"; ".py"; ".js"; ".ts"; ".java"; ".c"; ".cpp";
   ".h"; ".hpp"; ".cs"; ".php"; ".rb"; ".rs"; ".kt";
   ".html"; ".css"; ".scss"; ".sass"; ".less";
   ".sql"; ".sh"; ".bat"; ".ps1"; ".dockerfile";
   ".cfg"; ".conf"; ".ini"; ".toml"; ".properties"]%string.

(** [s[lo:hi]] on a slice of strings whose capacity is its length, which
    the result of [SplitLines] is; [None] is the panic. *)
Definition slice_range (s : list string) (lo hi : Z) : option (list string) :=
  if (0 <=? lo) && (lo <=? hi) && (hi <=? len s)
  then Some (take (Z.to_nat (hi - lo)) (drop (Z.to_nat lo) s))
  else None.

(** os.Stat succeeds on the files of the world. *)
Definition os_Stat (w : World) (name : string) : bool :=
  bool_decide (is_Some (files w !! name)).

Section EditingHandlers.

(** strings.ToLower, a parameter of the model as in [ReplaceText]. *)
Variable ToLower : string -> string.

Definition IsTextFile (filePath : string) : bool :=
  let ext := ToLower (GetFileExtension filePath) in
  existsb (String.eqb ext) textExtensions.

Definition ValidateFileSyntax (filePath content : string) : option string :=
  if bool_decide (filePath = "") || bool_decide (content = "")
  then Some "file path and content cannot be empty"
  else if negb (IsTextFile filePath)
  then Some "file is not a recognized text file type"
  else None.

(** The splice of [HandleEditBlock] is, statement for statement, the body
    of the application loop of [HandleEditFile]: [apply_operation] on the
    operation made of the three parameters. *)
Definition HandleEditBlock (w : World) (path : string) (startLine endLine : Z)
    (replacement : string) (showDiff createBackup validateSyntax : bool)
    : CallToolResult * World :=
  match IsPathAllowed w path with
  | None => (Panic, w)
  | Some false => (NewToolResultError "Access to this path is not allowed", w)
  | Some true =>
  match os.ReadFile w path with
  | inr err => (NewToolResultError ("Failed to read file: " +:+ err), w)
  | inl originalContent =>
  let lines := SplitLines originalContent in
  match ValidateLineRange startLine endLine (len lines) with
  | Some err => (NewToolResultError err, w)
  | None =>
  match (if createBackup then CreateBackup w path else (inl "", w)) with
  | (inr err, w) =>
      (NewToolResultError ("Failed to create backup: " +:+ err), w)
  | (inl _, w) =>
  let startIdx := wrap64 (startLine - 1) in
  let endIdx := endLine in
  match slice_range lines startIdx endIdx with
  | None => (Panic, w)
  | Some section =>
  let originalSection := JoinLines section in
  match apply_operation lines
          (mkEditOperation startLine endLine replacement "") with
  | None => (Panic, w)
  | Some newLines =>
  let newContent := JoinLines newLines in
  match (if validateSyntax then ValidateFileSyntax path newContent
         else None) with
  | Some err =>
      (NewToolResultError ("Syntax validation failed: " +:+ err), w)
  | None =>
  match os.WriteFile w path newContent with
  | inr err => (NewToolResultError ("Failed to write file: " +:+ err), w)
  | inl w =>
      let result := "Successfully edited lines " +:+ pretty startLine
                      +:+ "-" +:+ pretty endLine +:+ " in " +:+ path in
      (NewToolResultText
         (if showDiff
          then result +:+ strings.LF +:+ strings.LF +:+ "Diff:" +:+ strings.LF
                 +:+ GenerateCharacterDiff originalSection replacement
          else result), w)
  end end end end end end end end.

(** [FormatCodeFile]: [None] would be the [nil] error. *)
Definition FormatCodeFile (w : World) (filePath formatter configFile : string)
    : option string :=
  if bool_decide (filePath = "") then Some "file path cannot be empty"
  else if negb (os_Stat w filePath)
  then Some ("file does not exist: " +:+ filePath)
  else
    let ext := GetFileExtension filePath in
    if bool_decide (formatter = "")
       && negb (existsb (String.eqb ext)
                  [".go"; ".py"; ".js"; ".ts"; ".jsx"; ".tsx"; ".json";
                   ".java"; ".c"; ".cpp"; ".h"; ".hpp"]%string)
    then Some ("no default formatter for file type: " +:+ ext)
    else Some "code formatting not implemented in this simplified version".

Definition HandleFormatCode (w : World) (path formatter : string)
    (createBackup : bool) (configFile : string) : CallToolResult * World :=
  match IsPathAllowed w path with
  | None => (Panic, w)
  | Some false => (NewToolResultError "Access to this path is not allowed", w)
  | Some true =>
  match (if createBackup then CreateBackup w path else (inl "", w)) with
  | (inr err, w) =>
      (NewToolResultError ("Failed to create backup: " +:+ err), w)
  | (inl _, w) =>
  match FormatCodeFile w path formatter configFile with
  | Some err => (NewToolResultError ("Failed to format code: " +:+ err), w)
  | None =>
      (NewToolResultText ("Code formatted successfully: " +:+ path), w)
  end end end.

End EditingHandlers.

Definition HandleInsertText (w : World) (path : string)
    (insertions : list TextInsertion) (createBackup adjustLineNumbers : bool)
    : CallToolResult * World :=
  match IsPathAllowed w path with
  | None => (Panic, w)
  | Some false => (NewToolResultError "Access to this path is not allowed", w)
  | Some true =>
  match os.ReadFile w path with
  | inr err => (NewToolResultError ("Failed to read file: " +:+ err), w)
  | inl originalContent =>
  match (if createBackup then CreateBackup w path else (inl "", w)) with
  | (inr err, w) =>
      (NewToolResultError ("Failed to create backup: " +:+ err), w)
  | (inl _, w) =>
  match ApplyTextInsertions originalContent insertions adjustLineNumbers with
  | None => (Panic, w)
  | Some (_, Some err) =>
      (NewToolResultError ("Failed to apply insertions: " +:+ err), w)
  | Some (newContent, None) =>
      match os.WriteFile w path newContent with
      | inr err => (NewToolResultError ("Failed to write file: " +:+ err), w)
      | inl w =>
          (NewToolResultText ("Applied " +:+ pretty (len insertions)
                                +:+ " insertions to " +:+ path), w)
      end
  end end end end.

(** ** String utilities of package [common] *)

(** [TruncateString]; [None] is the slicing panic. *)
Definition TruncateString (str : string) (maxLength : Z) : option string :=
  if slen str <=? maxLength then Some str
  else if maxLength <=? 3 then str_to str maxLength
  else
    head ← str_to str (wrap64 (maxLength - 3));
    Some (head +:+ "...").

Definition SanitizeCommand (command : string) : string :=
  let sanitized := strings.ReplaceAll command (String "000" "") "" in
  let sanitized := strings.ReplaceAll sanitized (String "001" "") "" in
  let sanitized := strings.ReplaceAll sanitized (String "002" "") "" in
  let sanitized := strings.ReplaceAll sanitized (String "003" "") "" in
  sanitized.

(** The text with every byte 0, 1, 2 or 3 left out, read in one pass;
    compared below with the four replacement passes of
    [SanitizeCommand]. *)
Fixpoint without_control_bytes (s : string) : string :=
  match s with
  | EmptyString => EmptyString
  | String c s' =>
      if Ascii.eqb c "000" || Ascii.eqb c "001" || Ascii.eqb c "002"
         || Ascii.eqb c "003"
      then without_control_bytes s'
      else String c (without_control_bytes s')
  end.

(** ** The configuration: blocked commands and allowed directories *)

Module config.

Record ServerConfig : Type := mkServerConfig {
  BlockedCommands : list string;
  DefaultShell : string;
  AllowedDirectories : list string;
  FileReadLineLimit : Z;
  FileWriteLineLimit : Z;
  TelemetryEnabled : bool
}.

End config.

(** The loop of [indexOf]: [turns] is the number of turns left, [i] the
    index of the turn; [text[i:i+len(pattern)]] is in range on every
    turn. *)
Fixpoint indexOf_from (turns i : nat) (text pattern : string) : Z :=
  match turns with
  | O => -1
  | S turns =>
      if String.eqb (String.substring i (String.length pattern) text) pattern
      then Z.of_nat i
      else indexOf_from turns (S i) text pattern
  end.

(** [for i := 0; i <= len(text)-len(pattern); i++ { ... }] *)
Definition indexOf (text pattern : string) : Z :=
  if slen pattern <=? slen text
  then indexOf_from (S (String.length text - String.length pattern)) 0
         text pattern
  else -1.

(** The length test comes first, so the two slices are in range whenever
    they are evaluated. *)
Definition contains (text pattern : string) : bool :=
  (slen pattern <=? slen text)
  && (String.eqb text pattern
      || String.eqb (String.substring 0 (String.length pattern) text) pattern
      || String.eqb (String.substring
                       (String.length text - String.length pattern)
                       (String.length pattern) text) pattern
      || negb (indexOf text pattern =? -1)).

(** The configuration functions act on the global [instance]; they are
    modelled as functions of it.  [saveToFile], whose errors the source
    ignores, writes the instance to the configuration file and is left
    out. *)
Definition IsCommandBlocked (instance : config.ServerConfig)
    (command : string) : bool :=
  existsb (contains command) (config.BlockedCommands instance).

Definition set_allowed (instance : config.ServerConfig) (dirs : list string)
    : config.ServerConfig :=
  config.mkServerConfig (config.BlockedCommands instance)
    (config.DefaultShell instance) dirs (config.FileReadLineLimit instance)
    (config.FileWriteLineLimit instance) (config.TelemetryEnabled instance).


(** The new instance and the error, [None] for [nil]. *)
Definition AddAllowedDirectory (instance : config.ServerConfig) (dir : string)
    : config.ServerConfig * option string :=
  if existsb (fun existing => String.eqb existing dir)
       (config.AllowedDirectories instance)
  then (instance, None)
  else (set_allowed instance (config.AllowedDirectories instance ++ [dir]),
        None).

(** [append(dirs[:i], dirs[i+1:]...)] at the first [i] with
    [dirs[i] == dir]; [None] when there is none. *)
Fixpoint remove_first (dir : string) (dirs : list string)
    : option (list string) :=
  match dirs with
  | [] => None
  | existing :: rest =>
      if String.eqb existing dir then Some rest
      else rest' ← remove_first dir rest; Some (existing :: rest')
  end.

Definition RemoveAllowedDirectory (instance : config.ServerConfig)
    (dir : string) : config.ServerConfig * option string :=
  match remove_first dir (config.AllowedDirectories instance) with
  | Some dirs => (set_allowed instance dirs, None)
  | None =>
      (instance, Some ("directory not found in allowed list: " +:+ dir))
  end.


(** The world in which [Get] returns [instance]: [IsPathAllowed] reads
    the allow-list from it. *)
Definition with_config (w : World) (instance : config.ServerConfig) : World :=
  mkWorld (files w) (noread w) (nowrite w) (now w) (cwd w)
    (config.AllowedDirectories instance).

(** The text with every byte [d] left out. *)
Fixpoint without_byte (d : ascii) (s : string) : string :=
  match s with
  | EmptyString => EmptyString
  | String c s' =>
      if Ascii.eqb c d then without_byte d s'
      else String c (without_byte d s')
  end.

(** ** [HandleReadFile] of handlers/filesystem_handler.go *)

Definition truncation_marker : string := "... (truncated due to line limit)".

(** The page of [lines] that [offset] (already 0-based and clamped at 0)
    and [length] select; [None] is a slicing panic. *)
Definition read_page (lines : list string) (offset length : Z)
    : option (list string) :=
  if 0 <? length then
    let end_ := wrap64 (offset + length) in
    let end_ := if len lines <? end_ then len lines else end_ in
    if offset <? len lines then slice_range lines offset end_ else Some []
  else
    if offset <? len lines then slice_from lines offset else Some [].

(** The line read limit of the configuration. *)
Definition apply_read_limit (limit : Z) (resultLines : list string)
    : option (list string) :=
  if limit <? len resultLines then
    head ← slice_to resultLines limit;
    Some (head ++ [truncation_marker])
  else Some resultLines.

(** The numbering loop: a line equal to the marker is left as it is. *)
Definition number_lines (offset : Z) (resultLines : list string)
    : list string :=
  imap (fun i line =>
          if String.eqb line truncation_marker then line
          else pretty (wrap64 (wrap64 (offset + Z.of_nat i) + 1))
                 +:+ ": " +:+ line)
       resultLines.

(** [offsetArg] and [length] are the request's [offset] and [length]
    after their conversion to [int]; [cfg] is what [common.Get] returns.
    The handler changes nothing in the world. *)
Definition HandleReadFile (w : World) (cfg : config.ServerConfig)
    (path : string) (offsetArg length : Z) (showLineNumbers : bool)
    : CallToolResult :=
  match IsPathAllowed (with_config w cfg) path with
  | None => Panic
  | Some false => NewToolResultError "Access to this path is not allowed"
  | Some true =>
  match os.ReadFile w path with
  | inr err => NewToolResultError ("Failed to read file: " +:+ err)
  | inl content =>
  let lines := SplitLines content in
  let offset := wrap64 (offsetArg - 1) in
  let offset := if offset <? 0 then 0 else offset in
  match read_page lines offset length with
  | None => Panic
  | Some resultLines =>
  match apply_read_limit (config.FileReadLineLimit cfg) resultLines with
  | None => Panic
  | Some resultLines =>
      let resultLines :=
        if showLineNumbers && (0 <? len resultLines)
        then number_lines offset resultLines else resultLines in
      NewToolResultText (JoinLines resultLines)
  end end end end.

(* ===================================================================== *)
(** * Theorems                                                            *)
(* ===================================================================== *)

(** ** The strings library model *)

Lemma prefix_single (d c : ascii) (s : string) :
  String.prefix (String d "") (String c s) = Ascii.eqb d c.
Proof.
  simpl. destruct (ascii_dec d c) as [->|Hne].
  - rewrite Ascii.eqb_refl. by destruct s.
  - symmetry. by apply Ascii.eqb_neq.
Qed.

Lemma go_split_nonempty sep skip s : strings.go_split sep skip s <> [].
Proof.
  revert skip. induction s as [|c s IH]; intros skip; cbn [strings.go_split];
    [done|].
  destruct skip; [|apply IH].
  destruct (String.prefix sep (String c s)); [done|].
  by destruct (strings.go_split sep 0 s).
Qed.

Lemma Join_cons e rest sep :
  rest <> [] -> strings.Join (e :: rest) sep = e +:+ sep +:+ strings.Join rest sep.
Proof. by destruct rest. Qed.

Lemma Join_Split_single (d : ascii) (s : string) :
  strings.Join (strings.Split s (String d "")) (String d "") = s.
Proof.
  unfold strings.Split. induction s as [|c s IH]; [done|].
  cbn [strings.go_split]. rewrite prefix_single.
  destruct (Ascii.eqb_spec d c) as [->|Hne].
  - rewrite Join_cons by apply go_split_nonempty.
    cbn [String.length Nat.sub]. simpl. by rewrite IH.
  - pose proof (go_split_nonempty (String d "") 0 s) as Hn.
    destruct (strings.go_split (String d "") 0 s) as [|h t]; [done|].
    destruct t; simpl in *; by rewrite <- IH.
Qed.

Lemma Split_snoc_single (d : ascii) (s : string) :
  strings.Split (s +:+ String d "") (String d "") =
  strings.Split s (String d "") ++ [EmptyString].
Proof.
  unfold strings.Split. induction s as [|c s IH].
  - simpl. destruct (ascii_dec d d); [done|congruence].
  - change (String c s +:+ String d "") with (String c (s +:+ String d "")).
    cbn [strings.go_split]. rewrite !prefix_single.
    destruct (Ascii.eqb d c).
    + cbn [String.length Nat.sub]. simpl. by rewrite IH.
    + rewrite IH.
      pose proof (go_split_nonempty (String d "") 0 s) as Hn.
      by destruct (strings.go_split (String d "") 0 s).
Qed.

Lemma go_replace_step old new n c s :
  n < 0 ->
  strings.go_replace old new 0 n (String c s) =
  if String.prefix old (String c s)
  then new +:+ strings.go_replace old new (String.length old - 1) (n - 1) s
  else String c (strings.go_replace old new 0 n s).
Proof.
  intros Hn. cbn [strings.go_replace].
  destruct (Z.eqb_spec n 0); [lia|done].
Qed.

Lemma go_replace_neg old new s :
  forall skip n m, n < 0 -> m < 0 ->
  strings.go_replace old new skip n s = strings.go_replace old new skip m s.
Proof.
  induction s as [|c s IH]; intros skip n m Hn Hm; [done|].
  destruct skip as [|k]; [|cbn [strings.go_replace]; by apply IH].
  rewrite !go_replace_step by done.
  destruct (String.prefix old (String c s)).
  - f_equal. apply IH; lia.
  - f_equal. by apply IH.
Qed.

Lemma prefix_CRLF c s :
  String.prefix strings.CRLF (String c s) =
  Ascii.eqb c "013" &&
  match s with String c' _ => Ascii.eqb c' "010" | EmptyString => false end.
Proof.
  unfold strings.CRLF. cbn [String.prefix].
  destruct (ascii_dec "013" c) as [<-|Hne].
  - rewrite Ascii.eqb_refl. destruct s as [|c' s']; [done|].
    cbn [String.prefix andb]. destruct (ascii_dec "010" c') as [<-|Hne'].
    + rewrite Ascii.eqb_refl. by destruct s'.
    + symmetry. apply Ascii.eqb_neq. congruence.
  - assert (Ascii.eqb c "013" = false) as -> by (apply Ascii.eqb_neq; congruence).
    done.
Qed.

Lemma replace_CR_cons c s :
  strings.go_replace strings.CR strings.LF 0 (-1) (String c s) =
  String (if Ascii.eqb c "013" then "010"%char else c)
         (strings.go_replace strings.CR strings.LF 0 (-1) s).
Proof.
  rewrite go_replace_step by lia. unfold strings.CR at 1.
  rewrite prefix_single, Ascii.eqb_sym.
  destruct (Ascii.eqb c "013"); [|done].
  cbn. f_equal. apply go_replace_neg; lia.
Qed.

(** The two replacement passes of [SplitLines] compute [normalize_spec]. *)
Lemma two_passes_normalize (k : nat) :
  forall s, (String.length s <= k)%nat ->
  strings.ReplaceAll (strings.ReplaceAll s strings.CRLF strings.LF)
                     strings.CR strings.LF = normalize_spec s.
Proof.
  unfold strings.ReplaceAll, strings.Replace.
  change (String.eqb strings.CRLF strings.LF) with false.
  change (String.eqb strings.CR strings.LF) with false. cbv iota.
  induction k as [|k IH]; intros [|c r] Hlen; simpl in Hlen; try done; try lia.
  rewrite go_replace_step by lia. rewrite prefix_CRLF.
  cbn [normalize_spec].
  destruct (Ascii.eqb_spec c "013") as [->|Hc]; cbn [andb].
  - destruct r as [|c' r'].
    + done.
    + destruct (Ascii.eqb_spec c' "010") as [->|Hc'].
      * cbn [strings.CRLF String.length Nat.sub strings.go_replace].
        change (strings.LF +:+ ?x) with (String "010" x).
        rewrite replace_CR_cons. cbn [Ascii.eqb Bool.eqb]. cbv iota.
        f_equal. rewrite (go_replace_neg _ _ r' 0 (-1 - 1) (-1)) by lia.
        apply IH. simpl in Hlen. lia.
      * rewrite replace_CR_cons. cbn [Ascii.eqb Bool.eqb]. cbv iota.
        f_equal. apply IH. lia.
  - rewrite replace_CR_cons.
    destruct (Ascii.eqb_spec c "013"); [done|].
    f_equal. apply IH. lia.
Qed.

Lemma normalize_spec_snoc_LF (k : nat) :
  forall s, (String.length s <= k)%nat ->
  exists v, normalize_spec (s +:+ strings.LF) = v +:+ strings.LF.
Proof.
  induction k as [|k IH]; intros [|c r] Hlen; simpl in Hlen; try lia;
    try (by exists EmptyString).
  change (String c r +:+ strings.LF) with (String c (r +:+ strings.LF)).
  cbn [normalize_spec].
  destruct (Ascii.eqb c "013").
  - destruct r as [|c' r'].
    + by exists EmptyString.
    + change (String c' r' +:+ strings.LF) with (String c' (r' +:+ strings.LF)).
      cbv beta iota. destruct (Ascii.eqb c' "010").
      * destruct (IH r') as [v Hv]; [simpl in Hlen; lia|].
        exists (String "010" v). by rewrite Hv.
      * destruct (IH (String c' r')) as [v Hv]; [lia|].
        exists (String "010" v).
        change (String c' r' +:+ strings.LF)
          with (String c' (r' +:+ strings.LF)) in Hv. by rewrite Hv.
  - destruct (IH r) as [v Hv]; [lia|]. exists (String c v). by rewrite Hv.
Qed.

(** ** C7: the line buffer round trip *)

(** C7. For every text [t], serializing the loaded buffer gives the
    normalized text: [JoinLines (SplitLines t) = normalize_spec t], where
    [normalize_spec] collapses CR LF and lone CR to LF; the two
    replacement passes of [SplitLines] compute exactly that normal form;
    and the split is strict: a text that ends in a separator loads with an
    explicit empty last line. *)
Theorem C7_roundtrip :
  (forall t, JoinLines (SplitLines t) = normalize_spec t) /\
  (forall t, strings.Split (normalize_spec t) strings.LF = SplitLines t) /\
  (forall t, last (SplitLines (t +:+ strings.LF)) = Some EmptyString) /\
  (forall t, strings.Split (t +:+ strings.LF) strings.LF =
             strings.Split t strings.LF ++ [EmptyString]).
Proof.
  assert (Hn : forall t, SplitLines t = strings.Split (normalize_spec t) strings.LF).
  { intros t. unfold SplitLines.
    by rewrite (two_passes_normalize (String.length t) t). }
  repeat split.
  - intros t. rewrite Hn. unfold JoinLines. apply Join_Split_single.
  - intros t. by rewrite Hn.
  - intros t. rewrite Hn.
    destruct (normalize_spec_snoc_LF (String.length t) t) as [v ->]; [done|].
    unfold strings.LF. rewrite Split_snoc_single. apply last_snoc.
  - intros t. apply Split_snoc_single.
Qed.

Example SplitLines_mixed :
  SplitLines ("a" +:+ strings.CRLF +:+ "b" +:+ strings.CR +:+ "c" +:+ strings.LF) =
  ["a"; "b"; "c"; ""]%string.
Proof. reflexivity. Qed.

(** ** OperationValidator *)

Lemma OperationsOverlap_false a b :
  OperationsOverlap a b = false <-> disjoint_ranges a b.
Proof.
  unfold OperationsOverlap, disjoint_ranges.
  rewrite negb_false_iff, orb_true_iff, !Z.ltb_lt. tauto.
Qed.

Lemma OperationsOverlap_true a b :
  OperationsOverlap a b = true <->
  StartLine b <= EndLine a /\ StartLine a <= EndLine b.
Proof.
  unfold OperationsOverlap.
  rewrite negb_true_iff, orb_false_iff, !Z.ltb_ge. tauto.
Qed.

Lemma check_ranges_None n ops :
  forall i, check_ranges n i ops = None <-> Forall (op_in_range n) ops.
Proof.
  induction ops as [|op rest IH]; intros i; cbn [check_ranges].
  - split; [constructor|done].
  - rewrite Forall_cons, <- (IH (i + 1)). unfold op_in_range.
    destruct (Z.ltb_spec (StartLine op) 1), (Z.ltb_spec (EndLine op) 1);
      cbn [orb]; try (split; [done|lia]).
    destruct (Z.gtb_spec (StartLine op) n), (Z.gtb_spec (EndLine op) n);
      cbn [orb]; try (split; [done|lia]).
    destruct (Z.gtb_spec (StartLine op) (EndLine op));
      [split; [done|lia]|].
    split; [intros; split; [lia|done]|tauto].
Qed.

(** The first operation that fails a per-operation check decides the
    error: positivity is tested first, then the buffer length, then
    start against end. *)
Lemma check_ranges_first_failure n pre op post :
  forall i, Forall (op_in_range n) pre ->
  check_ranges n i (pre ++ op :: post) =
  let k := i + len pre + 1 in
  if (StartLine op <? 1) || (EndLine op <? 1) then Some (NotPositive k)
  else if (StartLine op >? n) || (EndLine op >? n) then Some (ExceedsLength k n)
  else if StartLine op >? EndLine op
  then Some (StartAfterEnd k (StartLine op) (EndLine op))
  else check_ranges n k post.
Proof.
  unfold len. induction pre as [|p pre IH]; intros i Hpre.
  - cbn [app check_ranges length]. cbv zeta.
    by replace (i + Z.of_nat 0 + 1) with (i + 1) by lia.
  - apply Forall_cons in Hpre as [Hp Hpre]. unfold op_in_range in Hp.
    cbn [app check_ranges].
    destruct (Z.ltb_spec (StartLine p) 1); [lia|].
    destruct (Z.ltb_spec (EndLine p) 1); [lia|].
    destruct (Z.gtb_spec (StartLine p) n); [lia|].
    destruct (Z.gtb_spec (EndLine p) n); [lia|].
    destruct (Z.gtb_spec (StartLine p) (EndLine p)); [lia|].
    cbn [orb]. rewrite IH by done. cbn [length].
    by replace (i + 1 + Z.of_nat (length pre) + 1)
      with (i + Z.of_nat (S (length pre)) + 1) by lia.
Qed.

Lemma check_overlap_with_None op later :
  forall i j, check_overlap_with op i j later = None <->
              Forall (disjoint_ranges op) later.
Proof.
  induction later as [|op' rest IH]; intros i j; cbn [check_overlap_with].
  - split; [constructor|done].
  - rewrite Forall_cons, <- (IH i (j + 1)), <- OperationsOverlap_false.
    destruct (OperationsOverlap op op'); [split; [done|by intros [? _]]|tauto].
Qed.

Lemma check_overlap_with_Some op later :
  forall i j e, check_overlap_with op i j later = Some e ->
  exists (k : nat) op', later !! k = Some op' /\
    OperationsOverlap op op' = true /\
    e = Overlapping (i + 1) (j + Z.of_nat k + 1).
Proof.
  induction later as [|op' rest IH]; intros i j e; cbn [check_overlap_with];
    [done|].
  destruct (OperationsOverlap op op') eqn:Hov.
  - intros [= <-]. exists 0%nat, op'. repeat split; [done|]. f_equal; lia.
  - intros (k & op'' & Hk & Ho & ->)%IH. exists (S k), op''.
    repeat split; [done..|]. f_equal; lia.
Qed.

Lemma check_overlaps_None ops :
  forall i, check_overlaps i ops = None <->
  (forall (a b : nat) opa opb, (a < b)%nat ->
     ops !! a = Some opa -> ops !! b = Some opb -> disjoint_ranges opa opb).
Proof.
  induction ops as [|op rest IH]; intros i; cbn [check_overlaps].
  - split; [by intros _ a b ? ? _ [=]|done].
  - destruct (check_overlap_with op i (i + 1) rest) eqn:Hin.
    + split; [done|]. intros Hall. exfalso.
      apply check_overlap_with_Some in Hin as (k & op' & Hk & Ho & _).
      apply (Hall 0%nat (S k) op op') in Hk; [|lia|done].
      apply OperationsOverlap_false in Hk. congruence.
    + apply check_overlap_with_None in Hin. rewrite (IH (i + 1)). split.
      * intros Hrest [|a] [|b] opa opb Hab Ha Hb; try lia.
        -- injection Ha as <-. cbn in Hb.
           rewrite Forall_lookup in Hin. by eapply Hin.
        -- cbn in Ha, Hb. eapply (Hrest a b); [lia|done..].
      * intros Hall a b opa opb Hab Ha Hb.
        apply (Hall (S a) (S b)); [lia|done..].
Qed.

Lemma check_overlaps_Some ops :
  forall i e, check_overlaps i ops = Some e ->
  exists (a b : nat) opa opb, (a < b)%nat /\
    ops !! a = Some opa /\ ops !! b = Some opb /\
    OperationsOverlap opa opb = true /\
    e = Overlapping (i + Z.of_nat a + 1) (i + Z.of_nat b + 1).
Proof.
  induction ops as [|op rest IH]; intros i e; cbn [check_overlaps]; [done|].
  destruct (check_overlap_with op i (i + 1) rest) eqn:Hin.
  - intros [= <-].
    apply check_overlap_with_Some in Hin as (k & op' & Hk & Ho & ->).
    exists 0%nat, (S k), op, op'. repeat split; [lia|done..|]. f_equal; lia.
  - intros (a & b & opa & opb & Hab & Ha & Hb & Ho & ->)%IH.
    exists (S a), (S b), opa, opb. repeat split; [lia|done..|]. f_equal; lia.
Qed.

Lemma Validate_None lines ops :
  ValidateEditOperations lines ops = None <->
  Forall (op_in_range (len lines)) ops /\
  (forall (a b : nat) opa opb, (a < b)%nat ->
     ops !! a = Some opa -> ops !! b = Some opb -> disjoint_ranges opa opb).
Proof.
  unfold ValidateEditOperations.
  rewrite <- (check_ranges_None (len lines) ops 0), <- (check_overlaps_None ops 0).
  destruct (check_ranges (len lines) 0 ops); [|tauto].
  split; [done|by intros [? _]].
Qed.

(** C4 (as the code has it). Validation succeeds exactly when every
    operation has positive line numbers, start not after end, both within
    the buffer, and no two operations share a line.  The per-operation
    checks run operation by operation, in request order, and for each
    operation positivity is tested first, then the buffer length, then
    start against end: the first operation that fails one of them decides
    the error, so an operation whose end precedes its start and whose
    line numbers exceed the buffer is reported as out of bounds.  An
    overlap is reported only when every operation passed those checks, and
    the error carries the 1-based numbers of two overlapping operations. *)
Theorem C4_validate_order (lines : list string) :
  (forall ops,
     ValidateEditOperations lines ops = None <->
     Forall (op_in_range (len lines)) ops /\
     (forall (a b : nat) opa opb, (a < b)%nat ->
        ops !! a = Some opa -> ops !! b = Some opb ->
        disjoint_ranges opa opb)) /\
  (forall pre op post,
     Forall (op_in_range (len lines)) pre -> ~ op_in_range (len lines) op ->
     ValidateEditOperations lines (pre ++ op :: post) =
     Some (if (StartLine op <? 1) || (EndLine op <? 1)
           then NotPositive (len pre + 1)
           else if (StartLine op >? len lines) || (EndLine op >? len lines)
           then ExceedsLength (len pre + 1) (len lines)
           else StartAfterEnd (len pre + 1) (StartLine op) (EndLine op))) /\
  (forall pre op post,
     Forall (op_in_range (len lines)) pre ->
     1 <= EndLine op < StartLine op -> len lines < StartLine op ->
     ValidateEditOperations lines (pre ++ op :: post) =
     Some (ExceedsLength (len pre + 1) (len lines))) /\
  (forall ops e,
     Forall (op_in_range (len lines)) ops ->
     ValidateEditOperations lines ops = Some e ->
     exists (a b : nat) opa opb,
       (a < b)%nat /\ ops !! a = Some opa /\ ops !! b = Some opb /\
       OperationsOverlap opa opb = true /\
       e = Overlapping (Z.of_nat a + 1) (Z.of_nat b + 1)) /\
  (forall ops i j,
     ValidateEditOperations lines ops = Some (Overlapping i j) ->
     Forall (op_in_range (len lines)) ops).
Proof.
  assert (Hfirst : forall pre op post,
     Forall (op_in_range (len lines)) pre -> ~ op_in_range (len lines) op ->
     ValidateEditOperations lines (pre ++ op :: post) =
     Some (if (StartLine op <? 1) || (EndLine op <? 1)
           then NotPositive (len pre + 1)
           else if (StartLine op >? len lines) || (EndLine op >? len lines)
           then ExceedsLength (len pre + 1) (len lines)
           else StartAfterEnd (len pre + 1) (StartLine op) (EndLine op))).
  { intros pre op post Hpre Hop. unfold ValidateEditOperations.
    rewrite check_ranges_first_failure by done. cbv zeta.
    replace (0 + len pre + 1) with (len pre + 1) by lia.
    unfold op_in_range in Hop.
    destruct ((StartLine op <? 1) || (EndLine op <? 1)) eqn:H1; [done|].
    destruct ((StartLine op >? len lines) || (EndLine op >? len lines)) eqn:H2;
      [done|].
    destruct (Z.gtb_spec (StartLine op) (EndLine op)); [done|].
    apply orb_false_iff in H1 as [?%Z.ltb_ge ?%Z.ltb_ge].
    apply orb_false_iff in H2 as [H2 H3].
    rewrite Z.gtb_ltb in H2, H3. apply Z.ltb_ge in H2, H3. lia. }
  split; [intros ops; apply Validate_None|].
  split; [exact Hfirst|].
  split.
  { intros pre op post Hpre Hop Hlen. rewrite Hfirst; [|done|].
    - destruct (Z.ltb_spec (StartLine op) 1); [lia|].
      destruct (Z.ltb_spec (EndLine op) 1); [lia|]. cbn [orb].
      destruct (Z.gtb_spec (StartLine op) (len lines)); [done|lia].
    - unfold op_in_range. lia. }
  split.
  { intros ops e Hall. unfold ValidateEditOperations.
    apply (check_ranges_None _ _ 0) in Hall as ->.
    intros (a & b & opa & opb & Hab & Ha & Hb & Ho & ->)%check_overlaps_Some.
    by exists a, b, opa, opb. }
  intros ops i j. unfold ValidateEditOperations.
  destruct (check_ranges (len lines) 0 ops) as [e|] eqn:Hr.
  - intros [= ->]. exfalso. revert Hr. generalize 0.
    induction ops as [|op rest IH]; intros z; cbn [check_ranges]; [done|].
    repeat (case_match; [done|]). apply IH.
  - intros _. by apply (check_ranges_None _ _ 0).
Qed.

(** C4, the claim as stated fails: on a buffer of three lines the single
    operation with start 5 and end 4 violates the well-formedness check
    (its end precedes its start), yet validation reports the out-of-bounds
    error, whose class is not [InvalidRange]. *)
Lemma C4_counterexample :
  let lines := ["a"; "b"; "c"]%string in
  let op := mkEditOperation 5 4 "" "" in
  EndLine op < StartLine op /\
  ValidateEditOperations lines [op] = Some (ExceedsLength 1 3) /\
  error_class (ExceedsLength 1 3) = OutOfBounds /\
  error_class (ExceedsLength 1 3) <> InvalidRange.
Proof. cbn. repeat split; first [lia | done]. Qed.

Lemma C4_witness :
  let lines := ["a"; "b"; "c"]%string in
  let op := mkEditOperation 5 4 "" "" in
  Forall (op_in_range (len lines)) [] /\
  1 <= EndLine op < StartLine op /\
  len lines < StartLine op /\
  ValidateEditOperations lines ([] ++ op :: []) =
  Some (ExceedsLength (len (@nil EditOperation) + 1) (len lines)).
Proof.
  cbv zeta.
  assert (H1 : 1 <= EndLine (mkEditOperation 5 4 "" "")
               < StartLine (mkEditOperation 5 4 "" ""))
    by (cbn [StartLine EndLine]; lia).
  assert (H2 : len ["a"; "b"; "c"]%string
               < StartLine (mkEditOperation 5 4 "" ""))
    by (unfold len; cbn [StartLine length]; lia).
  split; [constructor|]. split; [exact H1|]. split; [exact H2|].
  exact (proj1 (proj2 (proj2 (C4_validate_order ["a"; "b"; "c"]%string)))
           [] (mkEditOperation 5 4 "" "") [] (Forall_nil_2 _) H1 H2).
Defined.

(** The ranges [2,4] and [4,6] share line 4: on a buffer of ten lines
    validation names operations 1 and 2. *)
Example overlap_2_4_and_4_6 :
  ValidateEditOperations (replicate 10 EmptyString)
    [mkEditOperation 2 4 "" ""; mkEditOperation 4 6 "" ""]
  = Some (Overlapping 1 2).
Proof. reflexivity. Qed.

(** ** OperationScheduler: the exchange sort *)

Section ExchangeSortFacts.
Context {A : Type} (key : A -> Z).

Lemma swap_if_less_perm i (l : list A) j : swap_if_less key i l j ≡ₚ l.
Proof.
  unfold swap_if_less.
  destruct (l !! i) as [a|] eqn:Hi; [|done].
  destruct (l !! j) as [b|] eqn:Hj; [|done].
  destruct (key a <? key b); [|done].
  by apply Permutation_insert_swap.
Qed.

Lemma swap_if_less_length i (l : list A) j :
  length (swap_if_less key i l j) = length l.
Proof. apply Permutation_length, swap_if_less_perm. Qed.

Lemma inner_prefix_perm i (l : list A) js :
  foldl (swap_if_less key i) l js ≡ₚ l.
Proof.
  revert l. induction js as [|j js IH]; intros l; [done|].
  cbn [foldl]. rewrite IH. apply swap_if_less_perm.
Qed.

Lemma exchange_sort_perm (l : list A) : exchange_sort key l ≡ₚ l.
Proof.
  unfold exchange_sort. generalize (seq 0 (length l - 1)). intros idxs.
  revert l. induction idxs as [|i idxs IH]; intros l; [done|].
  cbn [foldl]. rewrite IH. apply inner_prefix_perm.
Qed.

(** One exchange keeps the settled prefix and extends the range of
    positions that position [i] dominates. *)
Lemma swap_if_less_inv i m (l : list A) :
  settled key i l ->
  (forall (b : nat) x y, (i < b <= i + m)%nat ->
     l !! i = Some x -> l !! b = Some y -> key y <= key x) ->
  let l' := swap_if_less key i l (S i + m) in
  settled key i l' /\
  (forall (b : nat) x y, (i < b <= i + S m)%nat ->
     l' !! i = Some x -> l' !! b = Some y -> key y <= key x).
Proof.
  intros Hset Hdom. unfold swap_if_less. cbv zeta.
  destruct (l !! i) as [xi|] eqn:Hi;
    [|split; [done|intros; congruence]].
  assert (Hdom' : forall (b : nat) y, (i < b <= i + m)%nat ->
            l !! b = Some y -> key y <= key xi).
  { intros b y Hb Hy. by apply (Hdom b xi y). }
  clear Hdom.
  destruct (l !! (S i + m)%nat) as [xj|] eqn:Hj.
  2:{ split; [done|]. intros b x y Hb Hx Hy.
      destruct (decide (b = S i + m)%nat) as [->|]; [congruence|].
      assert (x = xi) as -> by congruence.
      apply (Hdom' b); [lia|done]. }
  pose proof (lookup_lt_Some _ _ _ Hi) as Hli.
  pose proof (lookup_lt_Some _ _ _ Hj) as Hlj.
  destruct (Z.ltb_spec (key xi) (key xj)) as [Hlt|Hge].
  - assert (Hlook : forall p : nat,
        <[i:=xj]> (<[(S i + m)%nat:=xi]> l) !! p =
        if decide (p = i) then Some xj
        else if decide (p = S i + m)%nat then Some xi else l !! p).
    { intros p. destruct (decide (p = i)) as [->|Hpi].
      - apply list_lookup_insert_eq. by rewrite length_insert.
      - rewrite list_lookup_insert_ne by done.
        destruct (decide (p = S i + m)%nat) as [->|Hpj].
        + by apply list_lookup_insert_eq.
        + by rewrite list_lookup_insert_ne. }
    split.
    + intros a b x y Ha Hab. rewrite !Hlook.
      destruct (decide (a = i)); [lia|].
      destruct (decide (a = S i + m)%nat); [lia|]. intros Hx.
      destruct (decide (b = i)) as [->|].
      { intros [= <-]. apply (Hset a (S i + m)%nat); [lia..|done|done]. }
      destruct (decide (b = S i + m)%nat) as [->|].
      { intros [= <-]. by apply (Hset a i). }
      by apply (Hset a b).
    + intros b x y Hb. rewrite !Hlook.
      destruct (decide (i = i)); [|done]. intros [= <-].
      destruct (decide (b = i)); [lia|].
      destruct (decide (b = S i + m)%nat) as [->|].
      { intros [= <-]. lia. }
      intros Hy. assert (key y <= key xi) by (apply (Hdom' b); [lia|done]).
      lia.
  - split; [done|]. intros b x y Hb Hx Hy.
    assert (x = xi) as -> by congruence.
    destruct (decide (b = S i + m)%nat) as [->|]; [by simplify_eq|].
    apply (Hdom' b); [lia|done].
Qed.

Lemma inner_prefix_inv i m (l : list A) :
  settled key i l ->
  let l' := foldl (swap_if_less key i) l (seq (S i) m) in
  settled key i l' /\
  (forall (b : nat) x y, (i < b <= i + m)%nat ->
     l' !! i = Some x -> l' !! b = Some y -> key y <= key x).
Proof.
  intros Hset. induction m as [|m [IH1 IH2]]; cbv zeta.
  - split; [done|]. intros; lia.
  - rewrite seq_S, foldl_snoc. by apply swap_if_less_inv.
Qed.

Lemma inner_loop_settles i (l : list A) :
  settled key i l -> settled key (S i) (inner_loop key l i).
Proof.
  intros Hset. unfold inner_loop.
  destruct (inner_prefix_inv i (length l - S i) l Hset) as [H1 H2].
  intros a b x y Ha Hab Hx Hy.
  destruct (decide (a = i)) as [->|]; [|apply (H1 a b); [lia|done..]].
  apply (H2 b); [|done..].
  apply lookup_lt_Some in Hy.
  rewrite (Permutation_length (inner_prefix_perm _ _ _)) in Hy. lia.
Qed.

Lemma outer_prefix_settles n (l : list A) :
  settled key n (foldl (inner_loop key) l (seq 0 n)).
Proof.
  induction n as [|n IH].
  - intros a b x y Ha. lia.
  - rewrite seq_S, foldl_snoc. by apply inner_loop_settles.
Qed.

Lemma exchange_sort_descending (l : list A) :
  descending key (exchange_sort key l).
Proof.
  intros a b x y Hab Hx Hy.
  apply (outer_prefix_settles (length l - 1) l a b); [|done..].
  apply lookup_lt_Some in Hy.
  rewrite (Permutation_length (exchange_sort_perm l)) in Hy. lia.
Qed.

(** On a list already in descending order no exchange happens. *)
Lemma swap_if_less_id i j (l : list A) :
  descending key l -> (i < j)%nat -> swap_if_less key i l j = l.
Proof.
  intros Hd Hij. unfold swap_if_less.
  destruct (l !! i) as [a|] eqn:Hi; [|done].
  destruct (l !! j) as [b|] eqn:Hj; [|done].
  pose proof (Hd i j a b Hij Hi Hj).
  destruct (Z.ltb_spec (key a) (key b)); [lia|done].
Qed.

Lemma exchange_sort_id (l : list A) :
  descending key l -> exchange_sort key l = l.
Proof.
  intros Hd. unfold exchange_sort. generalize (length l - 1)%nat.
  intros n. induction n as [|n IH]; [done|].
  rewrite seq_S, foldl_snoc, IH. unfold inner_loop.
  generalize (length l - S (0 + n))%nat. intros m.
  induction m as [|m IHm]; [done|].
  rewrite seq_S, foldl_snoc, IHm. apply swap_if_less_id; [done|lia].
Qed.
End ExchangeSortFacts.

(** ** C5: what the scheduler's sort guarantees *)

(** C5 (as the code has it). The sort of the scheduler, for edit
    operations and for insertions alike, is a function of the request: it
    returns a permutation of the request in descending order of start
    line (of line), and it leaves a request that is already in descending
    order exactly as it is.  Nothing more is promised about operations
    with equal start lines. *)
Theorem C5_sort_descending :
  (forall ops,
     SortOperationsByLine ops ≡ₚ ops /\
     descending StartLine (SortOperationsByLine ops)) /\
  (forall ops, descending StartLine ops -> SortOperationsByLine ops = ops) /\
  (forall ins,
     sort_insertions ins ≡ₚ ins /\
     descending Line (sort_insertions ins)) /\
  (forall ins, descending Line ins -> sort_insertions ins = ins).
Proof.
  unfold SortOperationsByLine, sort_insertions. repeat split.
  - apply exchange_sort_perm.
  - apply exchange_sort_descending.
  - apply exchange_sort_id.
  - apply exchange_sort_perm.
  - apply exchange_sort_descending.
  - apply exchange_sort_id.
Qed.

(** C5, the claim as stated fails.  In the request [a; b; c] the
    operations [a] and [b] both start at line 1 and [c] starts at line 2:
    the first pass exchanges [a] with [c], and the sorted sequence is
    [c; b; a], with [b] ahead of [a].  The same happens to three
    insertions, and the text produced differs from the one obtained by
    applying the tied insertions in request order. *)
Lemma C5_counterexample :
  let a := mkEditOperation 1 1 "a" "" in
  let b := mkEditOperation 1 1 "b" "" in
  let c := mkEditOperation 2 2 "c" "" in
  let ia := mkTextInsertion 1 "A" false in
  let ib := mkTextInsertion 1 "B" false in
  let ic := mkTextInsertion 2 "C" false in
  let text := "x" +:+ strings.LF +:+ "y" in
  StartLine a = StartLine b /\
  SortOperationsByLine [a; b; c] = [c; b; a] /\
  ~ (forall ops (i j : nat) x y,
       (i < j)%nat -> ops !! i = Some x -> ops !! j = Some y ->
       StartLine x = StartLine y ->
       exists i' j' : nat,
         (i' < j')%nat /\ SortOperationsByLine ops !! i' = Some x /\
         SortOperationsByLine ops !! j' = Some y) /\
  sort_insertions [ia; ib; ic] = [ic; ib; ia] /\
  ApplyTextInsertions text [ia; ib; ic] true =
    Some (JoinLines ["x"; "A"; "B"; "y"; "C"]%string, None) /\
  apply_insertions (SplitLines text) [ic; ia; ib] =
    Some (inl ["x"; "B"; "A"; "y"; "C"]%string).
Proof.
  cbv zeta. split; [done|]. split; [reflexivity|].
  split; [|split; [reflexivity|split; reflexivity]].
  intros Hst.
  destruct (Hst [mkEditOperation 1 1 "a" ""; mkEditOperation 1 1 "b" "";
                 mkEditOperation 2 2 "c" ""] 0%nat 1%nat
              (mkEditOperation 1 1 "a" "") (mkEditOperation 1 1 "b" ""))
    as (i' & j' & Hlt & Hi & Hj); [lia|done..|].
  change (SortOperationsByLine _) with
    [mkEditOperation 2 2 "c" ""; mkEditOperation 1 1 "b" "";
     mkEditOperation 1 1 "a" ""] in Hi, Hj.
  destruct i' as [|[|[|i']]], j' as [|[|[|j']]]; cbn in Hi, Hj;
    try lia; discriminate.
Qed.

Lemma C5_witness :
  let ops := [mkEditOperation 3 3 "c" ""; mkEditOperation 2 2 "b" "";
              mkEditOperation 2 2 "b'" ""; mkEditOperation 1 1 "a" ""] in
  descending StartLine ops /\ SortOperationsByLine ops = ops.
Proof.
  cbv zeta.
  assert (Hd : descending StartLine
            [mkEditOperation 3 3 "c" ""; mkEditOperation 2 2 "b" "";
             mkEditOperation 2 2 "b'" ""; mkEditOperation 1 1 "a" ""]).
  { intros [|[|[|[|a]]]] [|[|[|[|b]]]] x y Hab Hx Hy; try lia;
      cbn in Hx, Hy; simplify_eq; cbn; lia. }
  split; [exact Hd|]. exact (proj1 (proj2 C5_sort_descending) _ Hd).
Defined.

(** ** OperationScheduler: the splice *)

Lemma wrap64_int x : is_int x -> wrap64 x = x.
Proof.
  unfold is_int, wrap64. intros Hx.
  rewrite Z.mod_small by lia. lia.
Qed.

Lemma slice_spec_at_take first last (lines : list string) :
  forall p, first <= p ->
  slice_spec_at p first last lines = take (Z.to_nat (last - p + 1)) lines.
Proof.
  induction lines as [|l rest IH]; intros p Hp; cbn [slice_spec_at].
  - by rewrite take_nil.
  - rewrite IH by lia. destruct (Z.leb_spec first p); [|lia].
    destruct (Z.leb_spec p last); cbn [andb app].
    + replace (Z.to_nat (last - p + 1)) with (S (Z.to_nat (last - (p + 1) + 1)))
        by lia. done.
    + replace (Z.to_nat (last - p + 1)) with 0%nat by lia.
      replace (Z.to_nat (last - (p + 1) + 1)) with 0%nat by lia.
      by rewrite take_0.
Qed.

Lemma slice_spec_at_drop first last (lines : list string) :
  forall p, p <= first -> p + len lines - 1 <= last ->
  slice_spec_at p first last lines = drop (Z.to_nat (first - p)) lines.
Proof.
  unfold len. induction lines as [|l rest IH]; intros p Hp Hlast;
    cbn [slice_spec_at].
  - by rewrite drop_nil.
  - cbn [length] in Hlast. destruct (Z.leb_spec first p).
    + assert (first = p) as -> by lia.
      destruct (Z.leb_spec p last); [|lia]. cbn [andb app].
      rewrite slice_spec_at_take by lia.
      rewrite take_ge by lia. by rewrite Z.sub_diag.
    + cbn [andb app]. rewrite IH by lia.
      by replace (Z.to_nat (first - p)) with (S (Z.to_nat (first - (p + 1))))
        by lia.
Qed.

Lemma apply_operation_in_range lines op bound :
  is_int bound -> bound <= len lines ->
  1 <= StartLine op -> StartLine op <= EndLine op -> EndLine op <= bound ->
  apply_operation lines op =
  Some (take (Z.to_nat (StartLine op - 1)) lines
          ++ SplitLines (Replacement op)
          ++ drop (Z.to_nat (EndLine op)) lines).
Proof.
  unfold is_int. intros Hb Hlen Hs Hse He. unfold apply_operation.
  rewrite wrap64_int by (unfold is_int; lia).
  unfold slice_to, slice_from.
  destruct (Z.leb_spec 0 (StartLine op - 1)); [|lia].
  destruct (Z.leb_spec (StartLine op - 1) (len lines)); [|lia].
  destruct (Z.leb_spec 0 (EndLine op)); [|lia].
  destruct (Z.leb_spec (EndLine op) (len lines)); [|lia].
  done.
Qed.

(** The insertion scenarios of the design document. *)
Example insert_before_line_1 :
  ApplyTextInsertions ("a" +:+ strings.LF +:+ "b")
    [mkTextInsertion 1 "Z" true] true
  = Some (JoinLines ["Z"; "a"; "b"]%string, None).
Proof. reflexivity. Qed.

Example insert_after_line_1 :
  ApplyTextInsertions ("a" +:+ strings.LF +:+ "b")
    [mkTextInsertion 1 "Z" false] true
  = Some (JoinLines ["a"; "Z"; "b"]%string, None).
Proof. reflexivity. Qed.

(** ** C3: one operation replaces its inclusive line range *)

Lemma apply_operation_valid (lines : list string) (op : EditOperation) :
  is_int (len lines) ->
  ValidateEditOperations lines [op] = None ->
  apply_operation lines op =
  Some (slice_spec 1 (StartLine op - 1) lines
          ++ SplitLines (Replacement op)
          ++ slice_spec (EndLine op + 1) (len lines) lines).
Proof.
  intros Hint [Hall _]%Validate_None.
  apply Forall_cons in Hall as [(Hs & He & Hse & Hsn & Hen) _].
  rewrite (apply_operation_in_range lines op (len lines)) by (done || lia).
  unfold slice_spec.
  rewrite slice_spec_at_take by lia.
  rewrite slice_spec_at_drop by lia.
  replace (StartLine op - 1 - 1 + 1) with (StartLine op - 1) by lia.
  by replace (EndLine op + 1 - 1) with (EndLine op) by lia.
Qed.

(** C3. For every buffer and every edit operation that passes validation
    on it, applying the operation yields the lines before the start line,
    then the lines of the split replacement text, then the lines after the
    end line: lines[1..start-1] ++ split(replacement) ++
    lines[end+1..len]; the single-file handler writes that buffer,
    serialized, to the file.  In particular, replacing lines 2 to 3 of
    [a; b; c; d] by the text of the three lines X, Y, Z gives
    [a; X; Y; Z; d]. *)
Theorem C3_apply_operation :
  (forall (lines : list string) (op : EditOperation),
     is_int (len lines) ->
     ValidateEditOperations lines [op] = None ->
     apply_operation lines op =
     Some (slice_spec 1 (StartLine op - 1) lines
             ++ SplitLines (Replacement op)
             ++ slice_spec (EndLine op + 1) (len lines) lines)) /\
  (forall w path op content,
     let lines := SplitLines content in
     IsPathAllowed w path = Some true ->
     os.ReadFile w path = inl content ->
     path ∉ nowrite w ->
     is_int (len lines) ->
     ValidateEditOperations lines [op] = None ->
     HandleEditFile w path [op] false true false true =
     (NewToolResultText ("Successfully applied 1 operations to " +:+ path),
      set_files w
        (<[path := JoinLines (slice_spec 1 (StartLine op - 1) lines
                                ++ SplitLines (Replacement op)
                                ++ slice_spec (EndLine op + 1) (len lines)
                                     lines)]> (files w)))) /\
  (let lines := ["a"; "b"; "c"; "d"]%string in
   let op := mkEditOperation 2 3
               ("X" +:+ strings.LF +:+ "Y" +:+ strings.LF +:+ "Z") "" in
   ValidateEditOperations lines [op] = None /\
   apply_operation lines op = Some ["a"; "X"; "Y"; "Z"; "d"]%string).
Proof.
  split; [apply apply_operation_valid|]. split; [|by cbv zeta].
  intros w path op content lines Hallowed Hread Hwrite Hint Hvalid.
  unfold HandleEditFile. rewrite Hallowed, Hread. fold lines. rewrite Hvalid.
  change (SortOperationsByLine [op]) with [op]. cbn [apply_operations].
  rewrite apply_operation_valid by done. cbn [mbind option_bind].
  unfold os.WriteFile. by rewrite decide_False by done.
Qed.

Lemma C3_witness :
  let lines := ["a"; "b"; "c"; "d"]%string in
  let op := mkEditOperation 2 3
              ("X" +:+ strings.LF +:+ "Y" +:+ strings.LF +:+ "Z") "" in
  is_int (len lines) /\
  ValidateEditOperations lines [op] = None /\
  apply_operation lines op =
  Some (slice_spec 1 (StartLine op - 1) lines
          ++ SplitLines (Replacement op)
          ++ slice_spec (EndLine op + 1) (len lines) lines).
Proof.
  cbv zeta.
  assert (Hint : is_int (len ["a"; "b"; "c"; "d"]%string)).
  { unfold is_int, len. cbn [length]. lia. }
  split; [exact Hint|]. split; [reflexivity|].
  apply (proj1 C3_apply_operation); [exact Hint|reflexivity].
Defined.

(** ** C6: the order of the request does not matter *)

Lemma Validate_None_valid_set lines ops :
  ValidateEditOperations lines ops = None <-> valid_set (len lines) ops.
Proof.
  rewrite Validate_None. unfold valid_set. split.
  - intros [Hall Hdis].
    assert (Hnd : NoDup ops).
    { apply NoDup_alt. intros i j x Hi Hj.
      destruct (decide (i = j)) as [|Hne]; [done|exfalso].
      assert (Hx : op_in_range (len lines) x).
      { rewrite Forall_lookup in Hall. by eapply Hall. }
      assert (disjoint_ranges x x) as Hd.
      { destruct (decide (i < j)%nat).
        - by apply (Hdis i j).
        - apply (Hdis j i); [lia|done..]. }
      unfold disjoint_ranges, op_in_range in *. lia. }
    repeat split; [done..|].
    intros x y [i Hi]%list_elem_of_lookup [j Hj]%list_elem_of_lookup Hxy.
    destruct (decide (i = j)) as [->|Hne]; [congruence|].
    destruct (decide (i < j)%nat).
    + by apply (Hdis i j).
    + assert (disjoint_ranges y x) as Hd by (apply (Hdis j i); [lia|done..]).
      unfold disjoint_ranges in *. lia.
  - intros (Hall & Hnd & Hdis). split; [done|].
    intros a b opa opb Hab Ha Hb. apply Hdis.
    + by eapply list_elem_of_lookup_2.
    + by eapply list_elem_of_lookup_2.
    + intros ->. pose proof (NoDup_lookup _ _ _ _ Hnd Ha Hb). lia.
Qed.

Lemma valid_set_perm n ops ops' :
  ops ≡ₚ ops' -> valid_set n ops -> valid_set n ops'.
Proof.
  intros Hp (Hall & Hnd & Hdis). unfold valid_set.
  rewrite <- Hp. repeat split; [done..|].
  intros x y Hx Hy. rewrite <- Hp in Hx, Hy. by apply Hdis.
Qed.

(** In a valid set sorted by descending start line every operation ends
    before the start of each operation placed ahead of it. *)
Lemma valid_sorted_below n (l : list EditOperation) :
  valid_set n l -> descending StartLine l ->
  forall (a b : nat) x y,
    (a < b)%nat -> l !! a = Some x -> l !! b = Some y ->
    EndLine y < StartLine x.
Proof.
  intros (Hall & Hnd & Hdis) Hdesc a b x y Hab Ha Hb.
  pose proof (Hdesc a b x y Hab Ha Hb) as Hle.
  assert (Hx : op_in_range n x).
  { rewrite Forall_lookup in Hall. by eapply Hall. }
  assert (Hxy : disjoint_ranges x y).
  { apply Hdis; [by eapply list_elem_of_lookup_2..|].
    intros ->. pose proof (NoDup_lookup _ _ _ _ Hnd Ha Hb). lia. }
  unfold disjoint_ranges, op_in_range in *. lia.
Qed.

Lemma StronglySorted_from_lookup {A} (R : relation A) (l : list A) :
  (forall (a b : nat) x y,
     (a < b)%nat -> l !! a = Some x -> l !! b = Some y -> R x y) ->
  StronglySorted R l.
Proof.
  induction l as [|x l IH]; intros H; constructor.
  - apply IH. intros a b y z Hab Ha Hb. apply (H (S a) (S b)); [lia|done..].
  - apply Forall_lookup. intros j y Hj. apply (H 0%nat (S j)); [lia|done..].
Qed.

(** Two valid requests with the same operations sort to the same
    sequence. *)
Lemma sort_valid_unique n ops ops' :
  valid_set n ops -> ops ≡ₚ ops' ->
  SortOperationsByLine ops = SortOperationsByLine ops'.
Proof.
  intros Hv Hp.
  assert (Hs : forall l, valid_set n l ->
            StronglySorted (fun x y => StartLine y < StartLine x)
                           (SortOperationsByLine l)).
  { intros l Hl. apply StronglySorted_from_lookup. intros a b x y Hab Ha Hb.
    assert (Hl' : valid_set n (SortOperationsByLine l)).
    { eapply valid_set_perm; [|done]. symmetry. apply exchange_sort_perm. }
    pose proof (valid_sorted_below n _ Hl'
                  (exchange_sort_descending StartLine l) a b x y Hab Ha Hb).
    destruct Hl' as (Hall & _). rewrite Forall_lookup in Hall.
    pose proof (Hall b y Hb) as Hy. unfold op_in_range in Hy. lia. }
  assert (Hanti : AntiSymm eq
            (fun x y : EditOperation => StartLine y < StartLine x)).
  { intros x y ? ?. lia. }
  apply (@StronglySorted_unique _ _ Hanti).
  - by apply Hs.
  - apply Hs. by eapply valid_set_perm.
  - unfold SortOperationsByLine. by rewrite !exchange_sort_perm.
Qed.

(** Applying operations that lie, in descending order, within the first
    [bound] lines of the buffer never slices out of range. *)
Lemma apply_operations_total (sorted : list EditOperation) :
  forall (buf : list string) (bound : Z),
    is_int bound -> bound <= len buf ->
    Forall (fun op => 1 <= StartLine op /\ StartLine op <= EndLine op /\
                      EndLine op <= bound) sorted ->
    StronglySorted (fun x y => EndLine y < StartLine x) sorted ->
    is_Some (apply_operations buf sorted).
Proof.
  induction sorted as [|op rest IH]; intros buf bound Hb Hlen Hall Hs;
    cbn [apply_operations]; [done|].
  apply Forall_cons in Hall as [(H1 & H2 & H3) Hall].
  apply StronglySorted_inv in Hs as [Hs Hop].
  rewrite (apply_operation_in_range buf op bound) by done. cbn.
  apply (IH _ (StartLine op - 1)).
  - unfold is_int in *. lia.
  - unfold len. rewrite length_app, length_take. unfold len in Hlen. lia.
  - rewrite Forall_forall in Hall, Hop. apply Forall_forall.
    intros y Hy. specialize (Hall y Hy). specialize (Hop y Hy). lia.
  - done.
Qed.

(** C6. For every buffer and every set of operations that passes
    validation, every permutation of the request passes validation too,
    is sorted to the same sequence, and applying it by the descending
    sort followed by the splices runs without a slicing fault and yields
    the same final buffer. *)
Theorem C6_order_independence (lines : list string)
    (ops ops' : list EditOperation) :
  is_int (len lines) ->
  ValidateEditOperations lines ops = None ->
  ops ≡ₚ ops' ->
  ValidateEditOperations lines ops' = None /\
  SortOperationsByLine ops' = SortOperationsByLine ops /\
  exists result,
    apply_operations lines (SortOperationsByLine ops) = Some result /\
    apply_operations lines (SortOperationsByLine ops') = Some result.
Proof.
  intros Hint Hv%Validate_None_valid_set Hp.
  assert (Heq := sort_valid_unique _ _ _ Hv Hp).
  split; [apply Validate_None_valid_set; by eapply valid_set_perm|].
  split; [done|]. rewrite <- Heq.
  assert (Hv' : valid_set (len lines) (SortOperationsByLine ops)).
  { eapply valid_set_perm; [|done]. symmetry. apply exchange_sort_perm. }
  destruct (apply_operations_total (SortOperationsByLine ops) lines (len lines))
    as [result Hr]; [done|lia| | |by exists result].
  - destruct Hv' as (Hall & _). eapply Forall_impl; [exact Hall|].
    unfold op_in_range. intros; lia.
  - apply StronglySorted_from_lookup.
    apply (valid_sorted_below _ _ Hv'), exchange_sort_descending.
Qed.

(** The multi-operation scenario of the design document, in both request
    orders. *)
Lemma C6_witness :
  let lines := ["1"; "2"; "3"; "4"; "5"]%string in
  let ops := [mkEditOperation 1 1 "A" "";
              mkEditOperation 4 5 ("B" +:+ strings.LF +:+ "C") ""] in
  let ops' := [mkEditOperation 4 5 ("B" +:+ strings.LF +:+ "C") "";
               mkEditOperation 1 1 "A" ""] in
  is_int (len lines) /\
  ValidateEditOperations lines ops = None /\
  ops ≡ₚ ops' /\
  (ValidateEditOperations lines ops' = None /\
   SortOperationsByLine ops' = SortOperationsByLine ops /\
   exists result,
     apply_operations lines (SortOperationsByLine ops) = Some result /\
     apply_operations lines (SortOperationsByLine ops') = Some result).
Proof.
  cbv zeta.
  assert (Hint : is_int (len ["1"; "2"; "3"; "4"; "5"]%string)).
  { unfold is_int, len. cbn [length]. lia. }
  split; [exact Hint|]. split; [reflexivity|]. split; [apply perm_swap|].
  apply C6_order_independence; [exact Hint|reflexivity|apply perm_swap].
Defined.

Example multi_op_scenario :
  apply_operations ["1"; "2"; "3"; "4"; "5"]%string
    (SortOperationsByLine
       [mkEditOperation 1 1 "A" "";
        mkEditOperation 4 5 ("B" +:+ strings.LF +:+ "C") ""])
  = Some ["A"; "2"; "3"; "B"; "C"]%string.
Proof. reflexivity. Qed.

(** ** C9: previews and dry runs leave the world as it is *)

Lemma file_failed_world atomic continueOnError w results errors errMsg :
  flow_world (file_failed atomic continueOnError w results errors errMsg) = w.
Proof. unfold file_failed. by repeat case_match. Qed.

Lemma process_file_dry_run atomic continueOnError w i fileReq results errors :
  flow_world (process_file atomic true continueOnError w i fileReq
                results errors) = w.
Proof.
  unfold process_file.
  repeat case_match; rewrite ?file_failed_world; done.
Qed.

Lemma process_files_dry_run atomic continueOnError w fileRequests :
  forall i results errors,
    flow_world (process_files atomic true continueOnError w i fileRequests
                  results errors) = w.
Proof.
  induction fileRequests as [|fileReq rest IH]; intros i results errors;
    cbn [process_files]; [done|].
  pose proof (process_file_dry_run atomic continueOnError w i fileReq
                results errors) as Hw.
  destruct (process_file atomic true continueOnError w i fileReq
              results errors); cbn in Hw; subst; [apply IH|done..].
Qed.

(** C9. A single-file edit with show_preview set and a batch with dry_run
    set return the world exactly as they found it, whatever the other
    flags: no file is written and no backup is created, so every file
    reads as before.  The text a preview returns is the rendering of the
    sorted operations, and the text of a dry run is the report of the
    batch built from previews alone. *)
Theorem C9_preview_no_mutation :
  (forall w path operations createBackup validateOperations atomic,
     snd (HandleEditFile w path operations createBackup validateOperations
            true atomic) = w) /\
  (forall w fileRequests atomic continueOnError validateAll,
     snd (HandleEditMultipleFiles w fileRequests atomic true continueOnError
            validateAll) = w) /\
  (forall w path operations createBackup validateOperations atomic text,
     fst (HandleEditFile w path operations createBackup validateOperations
            true atomic) = NewToolResultText text ->
     exists content preview,
       os.ReadFile w path = inl content /\
       GenerateEditPreview (SplitLines content)
         (SortOperationsByLine operations) = Some preview /\
       text = "Preview of changes for " +:+ path +:+ ":" +:+ strings.LF
                +:+ preview).
Proof.
  split; [|split].
  - intros. unfold HandleEditFile. by repeat case_match.
  - intros w fileRequests atomic continueOnError validateAll.
    unfold HandleEditMultipleFiles.
    destruct (if validateAll || atomic
              then validate_files w atomic 0 fileRequests [] else inr [])
      as [result|errors]; [done|].
    destruct ((validateAll || atomic) && atomic && (0 <? len errors)); [done|].
    pose proof (process_files_dry_run atomic continueOnError w fileRequests
                  0 [] errors) as Hw.
    by destruct (process_files atomic true continueOnError w 0 fileRequests
                   [] errors); cbn in Hw; subst.
  - intros w path operations createBackup validateOperations atomic text.
    unfold HandleEditFile. repeat case_match; cbn [fst]; try done;
      intros [= <-]; by do 2 eexists.
Qed.

Lemma C9_witness :
  let w := mkWorld {[ "/tmp/a.txt" := "a" +:+ strings.LF +:+ "b" ]} ∅ ∅ 100
             None ["/tmp"]%string in
  let ops := [mkEditOperation 1 1 "X" ""] in
  let text := "Preview of changes for /tmp/a.txt:" +:+ strings.LF
              +:+ "Lines 1-1:" +:+ strings.LF
              +:+ "- Original:" +:+ strings.LF
              +:+ "  1: a" +:+ strings.LF
              +:+ "+ Replacement:" +:+ strings.LF
              +:+ "  1: X" +:+ strings.LF +:+ strings.LF in
  fst (HandleEditFile w "/tmp/a.txt" ops true true true true)
    = NewToolResultText text /\
  snd (HandleEditFile w "/tmp/a.txt" ops true true true true) = w /\
  exists content preview,
    os.ReadFile w "/tmp/a.txt" = inl content /\
    GenerateEditPreview (SplitLines content) (SortOperationsByLine ops)
      = Some preview /\
    text = "Preview of changes for " +:+ "/tmp/a.txt" +:+ ":" +:+ strings.LF
             +:+ preview.
Proof.
  cbv zeta. split; [reflexivity|]. split.
  - apply (proj1 C9_preview_no_mutation).
  - apply (proj2 (proj2 C9_preview_no_mutation)
             _ _ _ true true true). reflexivity.
Defined.

(** The dry-run scenario: a batch over a file of two lines returns the
    preview and leaves the file and the rest of the world untouched, with
    a backup requested. *)
Example dry_run_scenario :
  let w := mkWorld {[ "/tmp/a.txt" := "a" +:+ strings.LF +:+ "b" ]} ∅ ∅ 100
             None ["/tmp"]%string in
  let batch := [mkFileEditRequest "/tmp/a.txt"
                  [mkEditOperation 1 1 "X" ""] true] in
  snd (HandleEditMultipleFiles w batch true true false true) = w /\
  os.ReadFile (snd (HandleEditMultipleFiles w batch true true false true))
    "/tmp/a.txt" = inl ("a" +:+ strings.LF +:+ "b").
Proof. cbv zeta. split; reflexivity. Qed.

(** ** C8: what a backup holds *)

Lemma str_length_app (s1 s2 : string) :
  String.length (s1 +:+ s2) = (String.length s1 + String.length s2)%nat.
Proof.
  induction s1 as [|c s1 IH]; [done|].
  change (String c s1 +:+ s2) with (String c (s1 +:+ s2)).
  cbn [String.length Nat.add]. by rewrite IH.
Qed.

Lemma backup_path_ne (filePath : string) (t : Z) :
  backup_path filePath t <> filePath.
Proof.
  unfold backup_path. intros Heq.
  apply (f_equal String.length) in Heq.
  rewrite !str_length_app in Heq. cbn in Heq. lia.
Qed.

Lemma ReadFile_inl w name data :
  os.ReadFile w name = inl data -> files w !! name = Some data.
Proof. unfold os.ReadFile. repeat case_match; by intros [= <-]. Qed.

Lemma WriteFile_inl w name data w' :
  os.WriteFile w name data = inl w' ->
  (name ∉ nowrite w) /\ w' = set_files w (<[name := data]> (files w)).
Proof. unfold os.WriteFile. case_decide; [done|]. by intros [= <-]. Qed.

Lemma CreateBackup_inl w filePath backupPath w' :
  CreateBackup w filePath = (inl backupPath, w') ->
  exists content,
    os.ReadFile w filePath = inl content /\
    backupPath = backup_path filePath (now w) /\
    w' = set_files w (<[backupPath := content]> (files w)).
Proof.
  unfold CreateBackup.
  destruct (os.ReadFile w filePath) as [content|err]; [|done].
  destruct (os.WriteFile w _ content) as [w1|err] eqn:Hw; [|done].
  intros [= <- <-]. apply WriteFile_inl in Hw as [_ ->]. by exists content.
Qed.

Lemma CreateBackup_inr w filePath err w' :
  CreateBackup w filePath = (inr err, w') -> w' = w.
Proof.
  unfold CreateBackup.
  destruct (os.ReadFile w filePath) as [content|e]; [|by intros [= _ <-]].
  by destruct (os.WriteFile w _ content) as [w1|e]; intros [= _ <-].
Qed.

(** The writes of the non-atomic loop touch no path but [path]. *)
Lemma apply_and_write_frame (path other : string) sortedOps :
  other <> path ->
  forall w resultLines i,
    files (snd (apply_and_write w path resultLines i sortedOps)) !! other =
    files w !! other.
Proof.
  intros Hne. induction sortedOps as [|op rest IH]; intros w resultLines i;
    cbn [apply_and_write]; [done|].
  destruct (apply_operation resultLines op) as [newLines|]; [|done].
  destruct (os.WriteFile w path (JoinLines newLines)) as [w'|err] eqn:Hw;
    [|done].
  rewrite IH. apply WriteFile_inl in Hw as [_ ->]. cbn.
  by rewrite lookup_insert_ne.
Qed.

(** C8 (as the code has it). A backup succeeds exactly when the file can
    be read and the backup path can be written; it then stores the bytes
    read, unmodified, under path + ".backup." + the Unix time in decimal,
    replacing whatever that path held before, and changes nothing else.
    After a successful single-file edit with create_backup set, the file
    at the backup path holds the content the target had before the
    request. *)
Theorem C8_backup_content :
  (forall w filePath content,
     os.ReadFile w filePath = inl content ->
     filePath +:+ ".backup." +:+ pretty (now w) ∉ nowrite w ->
     CreateBackup w filePath =
     (inl (filePath +:+ ".backup." +:+ pretty (now w)),
      set_files w (<[filePath +:+ ".backup." +:+ pretty (now w) := content]>
                     (files w)))) /\
  (forall w filePath backupPath w',
     CreateBackup w filePath = (inl backupPath, w') ->
     exists content,
       os.ReadFile w filePath = inl content /\
       backupPath = filePath +:+ ".backup." +:+ pretty (now w) /\
       files w' !! backupPath = Some content /\
       forall other, other <> backupPath ->
         files w' !! other = files w !! other) /\
  (forall w path operations validateOperations atomic text w',
     HandleEditFile w path operations true validateOperations false atomic
       = (NewToolResultText text, w') ->
     exists original,
       files w !! path = Some original /\
       files w' !! (path +:+ ".backup." +:+ pretty (now w)) = Some original).
Proof.
  split; [|split].
  - intros w filePath content Hr Hw. unfold CreateBackup, backup_path.
    rewrite Hr. unfold os.WriteFile. by rewrite decide_False.
  - intros w filePath backupPath w' (content & Hr & -> & ->)%CreateBackup_inl.
    exists content. repeat split; [done|..].
    + cbn. by rewrite lookup_insert_eq.
    + intros other Hne. cbn. by rewrite lookup_insert_ne.
  - intros w path operations validateOperations atomic text w'.
    unfold HandleEditFile.
    destruct (IsPathAllowed w path) as [[]|]; [|done..].
    destruct (os.ReadFile w path) as [original|err] eqn:Hr; [|done].
    destruct (if validateOperations then _ else _); [done|].
    destruct (CreateBackup w path) as [[backupPath|err] w1] eqn:Hb; [|done].
    apply CreateBackup_inl in Hb as (content & Hr' & -> & ->).
    assert (content = original) as -> by congruence.
    apply ReadFile_inl in Hr. intros Hres. exists original. split; [done|].
    fold (backup_path path (now w)).
    destruct atomic.
    + destruct (apply_operations _ _) as [resultLines|]; [|done].
      destruct (os.WriteFile _ path _) as [w2|err] eqn:Hw; [|done].
      injection Hres as _ <-. apply WriteFile_inl in Hw as [_ ->]. cbn.
      rewrite lookup_insert_ne by (symmetry; apply backup_path_ne).
      by rewrite lookup_insert_eq.
    + pose proof (apply_and_write_frame path (backup_path path (now w))
                    (SortOperationsByLine operations)
                    (backup_path_ne path (now w))
                    (set_files w (<[backup_path path (now w):=original]>
                                    (files w)))
                    (SplitLines original) 0) as Hframe.
      destruct (apply_and_write _ path _ 0 _) as [[result|] w2];
        injection Hres as ? <-; cbn in Hframe; rewrite Hframe;
        by rewrite lookup_insert_eq.
Qed.

(** C8, the claim as stated fails: a backup with the same name is
    overwritten.  The file [f] holds "new", an earlier backup taken in the
    same second holds "old"; the backup succeeds and the earlier backup
    now holds "new". *)
Lemma C8_counterexample :
  let w := mkWorld {[ "f" := "new"; "f.backup.100" := "old" ]}%string ∅ ∅ 100
             None [] in
  files w !! "f.backup.100"%string = Some "old"%string /\
  fst (CreateBackup w "f") = inl "f.backup.100"%string /\
  files (snd (CreateBackup w "f")) !! "f.backup.100"%string
    = Some "new"%string.
Proof. cbv zeta. repeat split; reflexivity. Qed.

Lemma C8_witness :
  let w := mkWorld {[ "/tmp/a.txt" := "a" +:+ strings.LF +:+ "b" ]} ∅ ∅ 100
             None ["/tmp"]%string in
  let ops := [mkEditOperation 1 1 "X" ""] in
  HandleEditFile w "/tmp/a.txt" ops true true false true =
    (NewToolResultText "Successfully applied 1 operations to /tmp/a.txt",
     snd (HandleEditFile w "/tmp/a.txt" ops true true false true)) /\
  exists original,
    files w !! "/tmp/a.txt"%string = Some original /\
    files (snd (HandleEditFile w "/tmp/a.txt" ops true true false true))
      !! ("/tmp/a.txt" +:+ ".backup." +:+ pretty (now w)) = Some original.
Proof.
  cbv zeta.
  assert (He : HandleEditFile
            (mkWorld {[ "/tmp/a.txt" := "a" +:+ strings.LF +:+ "b" ]} ∅ ∅ 100
               None ["/tmp"]%string)
            "/tmp/a.txt" [mkEditOperation 1 1 "X" ""] true true false true =
          (NewToolResultText "Successfully applied 1 operations to /tmp/a.txt",
           snd (HandleEditFile
                  (mkWorld {[ "/tmp/a.txt" := "a" +:+ strings.LF +:+ "b" ]}
                     ∅ ∅ 100 None ["/tmp"]%string)
                  "/tmp/a.txt" [mkEditOperation 1 1 "X" ""] true true false
                  true))) by reflexivity.
  split; [exact He|].
  exact (proj2 (proj2 C8_backup_content) _ _ _ _ _ _ _ He).
Defined.

(** Two edits of one file within the same second: the second backup
    takes the name of the first, and the content the file had before the
    first edit is no longer in any backup. *)
Example backup_replaced_within_a_second :
  let original := "a" +:+ strings.LF +:+ "b" in
  let w := mkWorld {[ "/tmp/a.txt" := original ]} ∅ ∅ 100 None
             ["/tmp"]%string in
  let w1 := snd (HandleEditFile w "/tmp/a.txt" [mkEditOperation 1 1 "X" ""]
                   true true false true) in
  let w2 := snd (HandleEditFile w1 "/tmp/a.txt" [mkEditOperation 2 2 "Y" ""]
                   true true false true) in
  files w1 !! "/tmp/a.txt.backup.100"%string = Some original /\
  files w2 !! "/tmp/a.txt.backup.100"%string
    = Some ("X" +:+ strings.LF +:+ "b") /\
  files w2 !! "/tmp/a.txt"%string = Some ("X" +:+ strings.LF +:+ "Y").
Proof. cbv zeta. repeat split; reflexivity. Qed.

(** ** C10: the unimplemented replacement modes *)

(** C10. With the regex mode or the whole-word mode requested,
    [ReplaceText] returns an error for every input, with the content
    unchanged and a count of zero.  The handler then never reports
    success and never writes the target: the file reads as before.  When
    the request gets as far as the replacement, with a backup requested
    and made, the error reported is the one of the replacement and the
    only change to the file system is the backup, which holds the content
    the target had. *)
Theorem C10_unimplemented_modes (ToLower : string -> string)
    (regex wholeWord : bool) :
  regex = true \/ wholeWord = true ->
  (forall content find replace caseSensitive maxReplacements,
     exists err,
       ReplaceText ToLower content find replace regex caseSensitive wholeWord
         maxReplacements = Some (content, 0, Some err)) /\
  (forall w path find replace caseSensitive maxReplacements createBackup,
     let r := HandleReplaceText ToLower w path find replace regex
                caseSensitive wholeWord maxReplacements createBackup in
     (forall text, fst r <> NewToolResultText text) /\
     files (snd r) !! path = files w !! path) /\
  (forall w path find replace caseSensitive maxReplacements original,
     IsPathAllowed w path = Some true ->
     os.ReadFile w path = inl original ->
     path +:+ ".backup." +:+ pretty (now w) ∉ nowrite w ->
     exists err,
       HandleReplaceText ToLower w path find replace regex caseSensitive
         wholeWord maxReplacements true =
       (NewToolResultError ("Failed to replace text: " +:+ err),
        set_files w (<[path +:+ ".backup." +:+ pretty (now w) := original]>
                       (files w)))).
Proof.
  intros Hmode.
  assert (Hrep : forall content find replace caseSensitive maxReplacements,
     exists err,
       ReplaceText ToLower content find replace regex caseSensitive wholeWord
         maxReplacements = Some (content, 0, Some err)).
  { intros. unfold ReplaceText. case_decide; [by eexists|].
    destruct Hmode as [-> | ->]; [|destruct regex]; cbn; by eexists. }
  split; [exact Hrep|]. split.
  - intros w path find replace caseSensitive maxReplacements createBackup.
    cbv zeta. unfold HandleReplaceText.
    destruct (IsPathAllowed w path) as [[]|]; [|done..].
    destruct (os.ReadFile w path) as [original|err]; [|done].
    destruct (Hrep original find replace caseSensitive maxReplacements)
      as [err Herr].
    destruct createBackup.
    + destruct (CreateBackup w path) as [[backupPath|e] w1] eqn:Hb;
        [|by apply CreateBackup_inr in Hb as ->].
      rewrite Herr. split; [done|].
      apply CreateBackup_inl in Hb as (content & _ & -> & ->). cbn.
      apply lookup_insert_ne, backup_path_ne.
    + by rewrite Herr.
  - intros w path find replace caseSensitive maxReplacements original
      Hallowed Hread Hwrite.
    destruct (Hrep original find replace caseSensitive maxReplacements)
      as [err Herr].
    exists err. unfold HandleReplaceText. rewrite Hallowed, Hread.
    unfold CreateBackup, backup_path. rewrite Hread. unfold os.WriteFile.
    rewrite decide_False by done. by rewrite Herr.
Qed.

Lemma C10_witness :
  let w := mkWorld {[ "/tmp/a.txt" := "abc" ]}%string ∅ ∅ 100 None
             ["/tmp"]%string in
  (true = true \/ false = true) /\
  fst (HandleReplaceText (fun s => s) w "/tmp/a.txt" "a.c" "x" true true
         false (-1) true)
    = NewToolResultError
        "Failed to replace text: regex and whole word replacements not implemented in this simplified version" /\
  files (snd (HandleReplaceText (fun s => s) w "/tmp/a.txt" "a.c" "x" true
                true false (-1) true)) !! "/tmp/a.txt"%string
    = Some "abc"%string /\
  files (snd (HandleReplaceText (fun s => s) w "/tmp/a.txt" "a.c" "x" true
                true false (-1) true)) !! "/tmp/a.txt.backup.100"%string
    = Some "abc"%string.
Proof.
  cbv zeta. split; [by left|].
  pose proof (C10_unimplemented_modes (fun s => s) true false
                (or_introl eq_refl)) as (_ & H2 & _).
  specialize (H2 (mkWorld {[ "/tmp/a.txt" := "abc" ]}%string ∅ ∅ 100 None
                    ["/tmp"]%string)
                 "/tmp/a.txt"%string "a.c"%string "x"%string true (-1) true).
  cbv zeta in H2. destruct H2 as [_ H2].
  split; [reflexivity|]. split; [rewrite H2; reflexivity|reflexivity].
Defined.

(** ** C1: an atomic batch can stop half-way *)

(** C1, the failing input.  Two files pass the validation pass of an
    atomic batch; the second cannot be opened for writing.  The first file
    is edited and written, then the write of the second fails and the
    request returns its error at once: the first file holds its edited
    content (and its backup exists) while the second is as it was. *)
Theorem C1_atomic_batch_partial :
  let a := "a" +:+ strings.LF +:+ "b" +:+ strings.LF +:+ "c" in
  let b := "1" +:+ strings.LF +:+ "2" in
  let w := mkWorld {[ "/tmp/a.txt" := a; "/tmp/b.txt" := b ]}%string
             ∅ {[ "/tmp/b.txt"%string ]} 100 None ["/tmp"]%string in
  let batch :=
    [mkFileEditRequest "/tmp/a.txt" [mkEditOperation 1 1 "X" ""] true;
     mkFileEditRequest "/tmp/b.txt" [mkEditOperation 2 2 "Y" ""] false] in
  let r := HandleEditMultipleFiles w batch true false false true in
  validate_files w true 0 batch [] = inr [] /\
  fst r = NewToolResultError
            "Failed to write file /tmp/b.txt: open /tmp/b.txt: permission denied" /\
  files (snd r) !! "/tmp/a.txt"%string
    = Some ("X" +:+ strings.LF +:+ "b" +:+ strings.LF +:+ "c") /\
  files (snd r) !! "/tmp/a.txt"%string <> files w !! "/tmp/a.txt"%string /\
  files (snd r) !! "/tmp/a.txt.backup.100"%string = Some a /\
  files (snd r) !! "/tmp/b.txt"%string = files w !! "/tmp/b.txt"%string.
Proof. cbv zeta. repeat split; try reflexivity. vm_compute. discriminate. Qed.

(** ** PathSandbox *)

Lemma str_app_assoc (a b c : string) : (a +:+ b) +:+ c = a +:+ (b +:+ c).
Proof.
  induction a as [|x a IH]; [done|].
  change (String x (a +:+ b) +:+ c = String x (a +:+ (b +:+ c))).
  change (String x ((a +:+ b) +:+ c) = String x (a +:+ (b +:+ c))).
  by rewrite IH.
Qed.

Lemma str_app_nil_r (a : string) : a +:+ "" = a.
Proof.
  induction a as [|x a IH]; [done|].
  change (String x (a +:+ "") = String x a). by rewrite IH.
Qed.

Lemma last_byte_cons c s :
  last_byte (String c s) = if decide (s = "") then Some c else last_byte s.
Proof.
  unfold last_byte. destruct s as [|c' s']; [done|].
  rewrite decide_False by done. cbn [String.length Nat.sub].
  by rewrite Nat.sub_0_r.
Qed.

Lemma last_byte_None s : last_byte s = None <-> s = "".
Proof.
  split; [|by intros ->].
  induction s as [|c s IH]; [done|]. rewrite last_byte_cons.
  case_decide; [done|]. intros H'. by apply IH in H'.
Qed.

Lemma str_app_empty (a b : string) : a +:+ b = "" -> a = "" /\ b = "".
Proof. by destruct a. Qed.

Lemma last_byte_app (a b : string) :
  b <> "" -> last_byte (a +:+ b) = last_byte b.
Proof.
  intros Hb. induction a as [|x a IH]; [done|].
  change (String x a +:+ b) with (String x (a +:+ b)).
  rewrite last_byte_cons. case_decide as Hab; [|done].
  by apply str_app_empty in Hab as [_ ?].
Qed.

Lemma last_byte_snoc (s : string) c :
  last_byte s = Some c -> exists s0, s = s0 +:+ String c "".
Proof.
  induction s as [|x s IH]; [done|]. rewrite last_byte_cons.
  case_decide as Hs.
  - intros [= ->]. subst s. by exists EmptyString.
  - intros [s0 ->]%IH. by exists (String x s0).
Qed.

Lemma str_snoc_inj (x y : string) c :
  x +:+ String c "" = y +:+ String c "" -> x = y.
Proof.
  revert y. induction x as [|a x IH]; intros [|b y] Heq; try done.
  - injection Heq as _ Heq. by destruct y.
  - injection Heq as _ Heq. by destruct x.
  - injection Heq as -> Heq. f_equal. by apply IH.
Qed.

Lemma prefix_app (p s : string) :
  String.prefix p s = true <-> exists r, s = p +:+ r.
Proof.
  revert s. induction p as [|a p IH]; intros s.
  - split; [intros _; by exists s|]. by destruct s.
  - destruct s as [|b s]; [split; [done|by intros [? ?]]|].
    cbn [String.prefix]. destruct (ascii_dec a b) as [->|Hne].
    + rewrite IH. split; intros [r Hr]; exists r.
      * by rewrite Hr.
      * by injection Hr.
    + split; [done|]. intros [r Hr]. injection Hr as ? ?. congruence.
Qed.

(** The test at the end of [IsSubPath] is a prefix test. *)
Lemma length_and_slice_prefix (p s : string) :
  (String.length p <=? String.length s)%nat
    && String.eqb (String.substring 0 (String.length p) s) p = true
  <-> exists r, s = p +:+ r.
Proof.
  rewrite <- prefix_app, String.prefix_correct, andb_true_iff, String.eqb_eq.
  split; [by intros [_ ?]|]. intros Hs. split; [|done].
  apply Nat.leb_le.
  apply String.prefix_correct, prefix_app in Hs as [r ->].
  rewrite str_length_app. lia.
Qed.

Lemma has_no_sep_last s :
  has_no_sep s = true -> last_byte s <> Some filepath.Separator.
Proof.
  induction s as [|c s IH]; [done|]. cbn [has_no_sep].
  intros [Hc Hs]%andb_true_iff. rewrite last_byte_cons.
  case_decide; [|by apply IH].
  intros [= ->]. by rewrite Ascii.eqb_refl in Hc.
Qed.

Lemma go_split_no_sep (s : string) :
  Forall (fun e => has_no_sep e = true) (strings.go_split "/" 0 s).
Proof.
  induction s as [|c s IH]; [by repeat constructor|].
  cbn [strings.go_split]. rewrite prefix_single.
  destruct (Ascii.eqb "/" c) eqn:Hc.
  - by constructor.
  - pose proof (go_split_nonempty "/" 0 s) as Hne.
    destruct (strings.go_split "/" 0 s) as [|piece rest]; [done|].
    apply Forall_cons in IH as [Hp Hr]. constructor; [|done].
    cbn [has_no_sep]. rewrite Ascii.eqb_sym. unfold filepath.Separator.
    by rewrite Hc.
Qed.

Lemma clean_step_good rooted stack elem :
  has_no_sep elem = true ->
  Forall (fun e => e <> "" /\ has_no_sep e = true) stack ->
  Forall (fun e => e <> "" /\ has_no_sep e = true)
         (filepath.clean_step rooted stack elem).
Proof.
  intros He Hs. unfold filepath.clean_step.
  repeat case_decide; try done.
  - destruct stack as [|top below]; [destruct rooted; by repeat constructor|].
    case_decide; [by constructor|]. by apply Forall_cons in Hs as [_ ?].
  - by constructor.
Qed.

Lemma Join_good (l : list string) :
  l <> [] -> Forall (fun e => e <> "" /\ has_no_sep e = true) l ->
  strings.Join l "/" <> "" /\
  last_byte (strings.Join l "/") <> Some filepath.Separator.
Proof.
  induction l as [|e rest IH]; [done|]. intros _ [[He Hs] Hr]%Forall_cons.
  destruct rest as [|e' rest'].
  - split; [done|by apply has_no_sep_last].
  - destruct IH as [IH1 IH2]; [done..|].
    rewrite Join_cons by done. split.
    + intros [? _]%str_app_empty. done.
    + rewrite last_byte_app; [|by intros [? _]%str_app_empty].
      by rewrite last_byte_app.
Qed.

Lemma Clean_shape (path : string) : clean_shape (filepath.Clean path).
Proof.
  unfold filepath.Clean. case_decide; [split; [done|by right]|].
  set (rooted := String.prefix "/" path).
  assert (Hgood : Forall (fun e => e <> "" /\ has_no_sep e = true)
            (foldl (filepath.clean_step rooted) [] (strings.Split path "/"))).
  { unfold strings.Split. pose proof (go_split_no_sep path) as Hp.
    revert Hp. generalize (strings.go_split "/" 0 path).
    assert (Hnil : Forall (fun e : string => e <> "" /\ has_no_sep e = true) [])
      by constructor.
    revert Hnil. generalize (@nil string). intros stack Hst l. revert stack Hst.
    induction l as [|e l IH]; intros stack Hst Hl; [done|].
    apply Forall_cons in Hl as [He Hl]. cbn [foldl].
    apply IH; [|done]. by apply clean_step_good. }
  cbv zeta.
  destruct (foldl (filepath.clean_step rooted) [] (strings.Split path "/"))
    as [|top below] eqn:Hst.
  - cbn. destruct rooted; [split; [done|by left]|].
    rewrite decide_True by done. split; [done|by right].
  - destruct (Join_good (rev (top :: below))) as [Hne Hlast].
    { intros Hr%(f_equal length). rewrite length_rev in Hr. done. }
    { by apply Forall_rev. }
    destruct rooted.
    + split; [done|]. right. by rewrite last_byte_app.
    + rewrite decide_False by done. split; [done|by right].
Qed.

Lemma Abs_shape w path a :
  cwd w <> Some "" -> filepath.Abs w path = Some a -> clean_shape a.
Proof.
  intros Hcwd. unfold filepath.Abs.
  destruct (String.prefix "/" path); [intros [= <-]; apply Clean_shape|].
  destruct (cwd w) as [wd|]; [|done]. intros [= <-].
  unfold filepath.Join2. rewrite decide_False by congruence.
  apply Clean_shape.
Qed.

(** On a non-empty path and a cleaned directory [IsSubPath] does not
    panic, and it answers whether the path is the directory or lies
    below it. *)
Lemma IsSubPath_within (a d : string) :
  a <> "" -> clean_shape d ->
  exists b, IsSubPath a d = Some b /\ (b = true <-> within a d).
Proof.
  intros Ha [Hd Hshape]. unfold IsSubPath.
  destruct (last_byte d) as [c|] eqn:Hc; [|by apply last_byte_None in Hc].
  destruct (last_byte a) as [c'|] eqn:Hc'; [|by apply last_byte_None in Hc'].
  cbn. eexists. split; [done|]. rewrite length_and_slice_prefix.
  unfold filepath.Separator in *.
  destruct (Ascii.eqb_spec c "/") as [->|Hcne].
  - (* the directory is the root *)
    destruct Hshape as [->|]; [|done]. split.
    + intros [r Hr]. right; right. split; [done|].
      destruct (Ascii.eqb c' "/"); [by exists r|].
      destruct a as [|x a']; [done|].
      change (String x a' +:+ "/") with (String x (a' +:+ "/")) in Hr.
      change ("/" +:+ r) with (String "/" r) in Hr.
      injection Hr as -> _. by exists a'.
    + intros [->|[[rest ->]|[_ [rest ->]]]];
        destruct (Ascii.eqb c' "/"); eexists;
        rewrite ?str_app_assoc; reflexivity.
  - (* the directory does not end in a separator *)
    split.
    + intros [r Hr]. destruct (Ascii.eqb_spec c' "/") as [->|Hc'ne].
      * right; left. exists r. by rewrite Hr, str_app_assoc.
      * destruct (decide (r = "")) as [->|Hr0].
        -- left. rewrite str_app_nil_r in Hr. by apply str_snoc_inj in Hr.
        -- right; left.
           assert (Hl : last_byte r = Some "/"%char).
           { rewrite <- (last_byte_app (d +:+ "/") r), <- Hr by done.
             by rewrite last_byte_app. }
           apply last_byte_snoc in Hl as [r' ->]. exists r'.
           rewrite <- !str_app_assoc in Hr. apply str_snoc_inj in Hr.
           by rewrite Hr, !str_app_assoc.
    + intros [->|[[rest ->]|[-> _]]].
      * assert (c' = c) as -> by congruence.
        rewrite (proj2 (Ascii.eqb_neq _ _) Hcne). exists EmptyString.
        by rewrite str_app_nil_r.
      * destruct (Ascii.eqb c' "/"); eexists;
          rewrite ?str_app_assoc; reflexivity.
      * by injection Hc as <-.
Qed.

Lemma allowed_in_within w (a : string) (dirs : list string) :
  cwd w <> Some "" -> a <> "" ->
  exists b, allowed_in w a dirs = Some b /\
    (b = true <->
     exists d da, d ∈ dirs /\ filepath.Abs w d = Some da /\ within a da).
Proof.
  intros Hcwd Ha. induction dirs as [|d dirs (b & Hb & IH)]; cbn [allowed_in].
  - exists false. split; [done|]. split; [done|].
    by intros (d & da & Hin%elem_of_nil & _).
  - destruct (filepath.Abs w d) as [da|] eqn:Hd.
    + destruct (IsSubPath_within a da Ha (Abs_shape _ _ _ Hcwd Hd))
        as (b' & -> & Hb').
      destruct b'.
      * exists true. split; [done|]. split; [|done]. intros _.
        exists d, da. split; [by left|]. split; [done|by apply Hb'].
      * exists b. split; [done|]. rewrite IH. split.
        -- intros (d' & da' & ? & ? & ?). exists d', da'.
           split; [by right|done].
        -- intros (d' & da' & [->|Hin]%elem_of_cons & Habs & Hw).
           ++ assert (da' = da) as -> by congruence.
              by apply Hb' in Hw.
           ++ by exists d', da'.
    + exists b. split; [done|]. rewrite IH. split.
      * intros (d' & da' & ? & ? & ?). exists d', da'. split; [by right|done].
      * intros (d' & da' & [->|Hin]%elem_of_cons & Habs & Hw); [congruence|].
        by exists d', da'.
Qed.

(** ** C2: the allow-list test *)

(** C2. [IsPathAllowed] always answers, and it answers true exactly when
    the absolute form of the path is the absolute form of some entry of
    the allow-list or lies below it, the remainder starting at a
    directory separator.  A path whose absolute form cannot be computed
    is not allowed; and with the single entry /tmp, the sibling
    /tmp-evil/x is not allowed while /tmp/x and /tmp are. *)
Theorem C2_is_allowed (w : World) :
  cwd w <> Some "" ->
  (forall path, exists b, IsPathAllowed w path = Some b) /\
  (forall path,
     IsPathAllowed w path = Some true <->
     exists a, filepath.Abs w path = Some a /\
       exists d da, d ∈ AllowedDirectories w /\
                    filepath.Abs w d = Some da /\ within a da) /\
  (forall path,
     filepath.Abs w path = None -> IsPathAllowed w path = Some false) /\
  (AllowedDirectories w = ["/tmp"]%string ->
   IsPathAllowed w "/tmp-evil/x" = Some false /\
   IsPathAllowed w "/tmp/x" = Some true /\
   IsPathAllowed w "/tmp" = Some true).
Proof.
  intros Hcwd.
  assert (Hmain : forall path a, filepath.Abs w path = Some a ->
            exists b, IsPathAllowed w path = Some b /\
              (b = true <->
               exists d da, d ∈ AllowedDirectories w /\
                            filepath.Abs w d = Some da /\ within a da)).
  { intros path a Ha. unfold IsPathAllowed. rewrite Ha.
    apply allowed_in_within; [done|].
    by destruct (Abs_shape _ _ _ Hcwd Ha). }
  split; [|split; [|split]].
  - intros path. destruct (filepath.Abs w path) as [a|] eqn:Ha.
    + destruct (Hmain path a Ha) as (b & Hb & _). by exists b.
    + exists false. unfold IsPathAllowed. by rewrite Ha.
  - intros path. destruct (filepath.Abs w path) as [a|] eqn:Ha.
    + destruct (Hmain path a Ha) as (b & -> & Hb). split.
      * intros [= ->]. exists a. split; [done|]. by apply Hb.
      * intros (a' & [= <-] & Hex). f_equal. by apply Hb.
    + unfold IsPathAllowed. rewrite Ha. split; [done|]. by intros (a & ? & _).
  - intros path Ha. unfold IsPathAllowed. by rewrite Ha.
  - intros Hdirs. unfold IsPathAllowed. rewrite Hdirs. by cbn.
Qed.

Lemma C2_witness :
  let w := mkWorld ∅ ∅ ∅ 0 (Some "/home/u"%string) ["/tmp"]%string in
  cwd w <> Some ""%string /\
  (IsPathAllowed w "/tmp-evil/x" = Some false /\
   IsPathAllowed w "/tmp/x" = Some true /\
   IsPathAllowed w "/tmp" = Some true).
Proof.
  cbv zeta. split; [done|].
  refine (proj2 (proj2 (proj2 (C2_is_allowed _ _))) _); [done|reflexivity].
Defined.

(** ** The atomic batch when validation fails *)

(** Under [atomic] a failure of the validation pass returns before any
    file is touched. *)
Lemma atomic_validation_failure_no_write w fileRequests dryRun
    continueOnError validateAll result :
  validate_files w true 0 fileRequests [] = inl result ->
  HandleEditMultipleFiles w fileRequests true dryRun continueOnError
    validateAll = (result, w).
Proof.
  intros Hv. unfold HandleEditMultipleFiles.
  rewrite orb_true_r. by rewrite Hv.
Qed.

(** The atomicity scenario of the design document: the operations of the
    second file are invalid, the first file is left as it was. *)
Example atomic_batch_invalid_second_file :
  let w := mkWorld {[ "/tmp/a.txt" := "a" +:+ strings.LF +:+ "b";
                      "/tmp/b.txt" := "1" ]}%string ∅ ∅ 100 None
             ["/tmp"]%string in
  let batch :=
    [mkFileEditRequest "/tmp/a.txt" [mkEditOperation 1 1 "X" ""] true;
     mkFileEditRequest "/tmp/b.txt" [mkEditOperation 2 2 "Y" ""] false] in
  HandleEditMultipleFiles w batch true false false true =
  (NewToolResultError
     "Invalid operations in file /tmp/b.txt: operation 1: line numbers exceed file length (1 lines)",
   w).
Proof. reflexivity. Qed.

(* ===================================================================== *)
(** * Further properties of the engine                                    *)
(* ===================================================================== *)

(** ** The line buffer *)

Lemma normalize_spec_no_CR (k : nat) :
  forall s, (String.length s <= k)%nat ->
  forall n c, String.get n (normalize_spec s) = Some c -> c <> "013"%char.
Proof.
  induction k as [|k IH]; intros [|c r] Hlen; simpl in Hlen; try lia;
    try (by intros [|?] ?).
  cbn [normalize_spec].
  destruct (Ascii.eqb_spec c "013") as [->|Hc].
  - destruct r as [|c' r'].
    + intros [|[|n]] c0; cbn [String.get]; intros [= <-]; done.
    + destruct (Ascii.eqb c' "010").
      * intros [|n] c0; cbn [String.get]; [by intros [= <-]|].
        apply IH. simpl in Hlen. lia.
      * intros [|n] c0; cbn [String.get]; [by intros [= <-]|]. apply IH. lia.
  - intros [|n] c0; cbn [String.get]; [by intros [= <-]|]. apply IH. lia.
Qed.

Lemma get_all_no_CR (s : string) :
  (forall n c, String.get n s = Some c -> c <> "013"%char) ->
  forall c r, s = String c r ->
  c <> "013"%char /\
  (forall n c', String.get n r = Some c' -> c' <> "013"%char).
Proof.
  intros H c r ->. split.
  - by apply (H 0%nat).
  - intros n c' Hn. by apply (H (S n)).
Qed.

Lemma go_split_line_breaks (s : string) :
  (forall n c, String.get n s = Some c -> c <> "013"%char) ->
  Forall (fun l => has_no_line_break l = true) (strings.go_split strings.LF 0 s).
Proof.
  induction s as [|c s IH]; intros Hs; [by repeat constructor|].
  destruct (get_all_no_CR _ Hs c s eq_refl) as [Hc Hs'].
  specialize (IH Hs').
  cbn [strings.go_split]. unfold strings.LF at 1. rewrite prefix_single.
  destruct (Ascii.eqb_spec "010" c) as [<-|Hlf].
  - by constructor.
  - pose proof (go_split_nonempty strings.LF 0 s) as Hne.
    destruct (strings.go_split strings.LF 0 s) as [|piece rest]; [done|].
    apply Forall_cons in IH as [Hp Hr]. constructor; [|done].
    cbn [has_no_line_break]. rewrite Hp.
    rewrite (proj2 (Ascii.eqb_neq c "010")) by congruence.
    by rewrite (proj2 (Ascii.eqb_neq c "013")).
Qed.

(** X1. No line of a loaded buffer contains a line feed or a carriage
    return, whatever the text. *)
Theorem SplitLines_no_line_break (t : string) :
  Forall (fun l => has_no_line_break l = true) (SplitLines t).
Proof.
  unfold SplitLines. rewrite (two_passes_normalize (String.length t) t) by done.
  apply go_split_line_breaks.
  apply (normalize_spec_no_CR (String.length t)). done.
Qed.

Lemma normalize_spec_id (s : string) :
  has_no_line_break s = true -> normalize_spec s = s.
Proof.
  induction s as [|c s IH]; [done|]. cbn [has_no_line_break normalize_spec].
  intros [[_ Hc]%andb_true_iff Hs]%andb_true_iff.
  apply negb_true_iff in Hc. rewrite Hc. by rewrite IH.
Qed.

Lemma go_split_line (l : string) :
  has_no_line_break l = true -> strings.go_split strings.LF 0 l = [l].
Proof.
  induction l as [|c l IH]; [done|]. cbn [has_no_line_break].
  intros [[Hc _]%andb_true_iff Hl]%andb_true_iff.
  cbn [strings.go_split]. unfold strings.LF at 1.
  rewrite prefix_single, Ascii.eqb_sym.
  apply negb_true_iff in Hc. rewrite Hc. by rewrite IH.
Qed.

Lemma go_split_line_app (l s : string) :
  has_no_line_break l = true ->
  strings.go_split strings.LF 0 (l +:+ strings.LF +:+ s) =
  l :: strings.go_split strings.LF 0 s.
Proof.
  induction l as [|c l IH].
  - intros _. change ("" +:+ strings.LF +:+ s) with (String "010" s).
    cbn [strings.go_split]. unfold strings.LF at 1.
    rewrite prefix_single, Ascii.eqb_refl. done.
  - cbn [has_no_line_break].
    intros [[Hc _]%andb_true_iff Hl]%andb_true_iff.
    change (String c l +:+ strings.LF +:+ s)
      with (String c (l +:+ strings.LF +:+ s)).
    cbn [strings.go_split]. unfold strings.LF at 1.
    rewrite prefix_single, Ascii.eqb_sym.
    apply negb_true_iff in Hc. rewrite Hc. by rewrite IH.
Qed.

Lemma Join_lines_no_CR (lines : list string) :
  Forall (fun l => has_no_line_break l = true) lines ->
  forall n c, String.get n (strings.Join lines strings.LF) = Some c ->
              c <> "013"%char.
Proof.
  assert (Happ : forall a b : string,
    (forall n c, String.get n a = Some c -> c <> "013"%char) ->
    (forall n c, String.get n b = Some c -> c <> "013"%char) ->
    forall n c, String.get n (a +:+ b) = Some c -> c <> "013"%char).
  { induction a as [|x a IHa]; intros b Ha Hb; [done|].
    change (String x a +:+ b) with (String x (a +:+ b)).
    intros [|n] c; cbn.
    - intros [= <-]. by apply (Ha 0%nat).
    - apply IHa; [|done]. intros m c' Hm. by apply (Ha (S m)). }
  assert (Hline : forall l, has_no_line_break l = true ->
    forall n c, String.get n l = Some c -> c <> "013"%char).
  { induction l as [|x l IHl]; [by intros _ [|?] ?|]. cbn [has_no_line_break].
    intros [[_ Hx]%andb_true_iff Hl]%andb_true_iff [|n] c; cbn.
    - intros [= <-] ->. done.
    - by apply IHl. }
  induction lines as [|l rest IH]; [by intros _ [|?] ?|].
  intros [Hl Hrest]%Forall_cons. destruct rest as [|l' rest'].
  - by apply Hline.
  - rewrite Join_cons by done. apply Happ; [by apply Hline|].
    apply Happ; [|by apply IH]. by intros [|[|?]] c; cbn; intros [= <-].
Qed.

(** X2. Loading what was serialized gives the buffer back: for a
    non-empty list of lines, none of which contains a line break,
    [SplitLines (JoinLines lines) = lines].  (The empty list serializes to
    the empty text, which loads as one empty line.) *)
Theorem SplitLines_JoinLines (lines : list string) :
  lines <> [] ->
  Forall (fun l => has_no_line_break l = true) lines ->
  SplitLines (JoinLines lines) = lines.
Proof.
  intros Hne Hall. unfold SplitLines, JoinLines.
  rewrite (two_passes_normalize (String.length (strings.Join lines strings.LF)))
    by done.
  assert (Hid : forall s,
            (forall n c, String.get n s = Some c -> c <> "013"%char) ->
            normalize_spec s = s).
  { induction s as [|c s IH]; [done|]. intros Hs.
    destruct (get_all_no_CR _ Hs c s eq_refl) as [Hc Hs'].
    cbn [normalize_spec]. rewrite (proj2 (Ascii.eqb_neq c "013")) by done.
    by rewrite IH. }
  rewrite Hid by (by apply Join_lines_no_CR).
  unfold strings.Split. clear Hid.
  induction lines as [|l rest IH]; [done|].
  apply Forall_cons in Hall as [Hl Hrest]. destruct rest as [|l' rest'].
  - by apply go_split_line.
  - rewrite Join_cons by done. rewrite go_split_line_app by done.
    by rewrite IH.
Qed.

Lemma SplitLines_JoinLines_witness :
  let lines := ["a"; ""; "c"]%string in
  lines <> [] /\
  Forall (fun l => has_no_line_break l = true) lines /\
  SplitLines (JoinLines lines) = lines.
Proof.
  cbv zeta.
  assert (H1 : ["a"; ""; "c"]%string <> []) by done.
  assert (H2 : Forall (fun l => has_no_line_break l = true)
                 ["a"; ""; "c"]%string) by (repeat constructor).
  split; [exact H1|]. split; [exact H2|].
  exact (SplitLines_JoinLines _ H1 H2).
Defined.

Example JoinLines_nil_not_inverted : SplitLines (JoinLines []) = [""]%string.
Proof. reflexivity. Qed.

(** ** The preview *)

Lemma preview_original_total (fuel : nat) :
  forall lines i endLine,
    is_int (len lines) -> 0 <= i ->
    0 < Z.of_nat fuel -> len lines - i < Z.of_nat fuel ->
    is_Some (preview_original fuel lines i endLine).
Proof.
  induction fuel as [|fuel IH]; intros lines i endLine Hint Hi Hpos Hfuel;
    [lia|].
  cbn [preview_original].
  destruct (Z.ltb_spec i endLine); cbn [andb]; [|done].
  destruct (Z.ltb_spec i (len lines)); [|done].
  unfold index_line.
  destruct (Z.ltb_spec i 0); [lia|].
  destruct (Z.leb_spec (len lines) i); [lia|]. cbn [orb].
  destruct (lines !! Z.to_nat i) as [l|] eqn:Hl.
  2:{ apply lookup_ge_None in Hl. unfold len in *. lia. }
  cbn. rewrite wrap64_int by (unfold is_int in *; lia).
  destruct (IH lines (i + 1) endLine) as [rest ->]; [done|lia|lia|lia|].
  done.
Qed.

Lemma preview_operation_None lines op :
  is_int (len lines) ->
  preview_operation lines op = None <->
  wrap64 (StartLine op - 1) < 0 /\ wrap64 (StartLine op - 1) < EndLine op.
Proof.
  intros Hint. unfold preview_operation.
  set (i := wrap64 (StartLine op - 1)).
  destruct (Z.lt_ge_cases i 0) as [Hneg|Hpos].
  - cbn [preview_original].
    destruct (Z.ltb_spec i (EndLine op)); cbn [andb].
    + destruct (Z.ltb_spec i (len lines)); [|unfold len in *; lia].
      unfold index_line. destruct (Z.ltb_spec i 0); [|lia]. cbn. done.
    + cbn. split; [done|lia].
  - destruct (preview_original_total (S (length lines)) lines i (EndLine op))
      as [text ->]; [done|done|lia|unfold len; lia|].
    cbn. split; [done|lia].
Qed.

(** X3. Rendering a preview faults exactly when some operation has a
    start index (start line minus one, as the machine computes it) that is
    negative and below its end line: the loop over the original lines
    then reads [lines[i]] at a negative index.  In particular the preview
    of operations that passed validation never faults, and it never runs
    out of the bound on its loop. *)
Theorem GenerateEditPreview_fault (lines : list string)
    (operations : list EditOperation) :
  is_int (len lines) ->
  (GenerateEditPreview lines operations = None <->
   exists op, op ∈ operations /\
     wrap64 (StartLine op - 1) < 0 /\
     wrap64 (StartLine op - 1) < EndLine op) /\
  (Forall (op_in_range (len lines)) operations ->
   is_Some (GenerateEditPreview lines operations)).
Proof.
  intros Hint.
  assert (Hiff : GenerateEditPreview lines operations = None <->
    exists op, op ∈ operations /\
      wrap64 (StartLine op - 1) < 0 /\
      wrap64 (StartLine op - 1) < EndLine op).
  { induction operations as [|op rest IH]; cbn [GenerateEditPreview].
    - split; [done|]. by intros (op & Hin%elem_of_nil & _).
    - destruct (preview_operation lines op) as [text|] eqn:Hop; cbn.
      + destruct (GenerateEditPreview lines rest) as [more|]; cbn.
        * split; [done|]. intros (op' & [->|Hin]%elem_of_cons & Hbad).
          -- apply (preview_operation_None lines op Hint) in Hbad.
             congruence.
          -- assert (Some more = None) as Hn; [|done].
             apply IH. by exists op'.
        * split; [|done]. intros _.
          destruct (proj1 IH eq_refl) as (op' & Hin & Hbad).
          exists op'. split; [by right|done].
      + split; [|done]. intros _. exists op. split; [by left|].
        by apply (preview_operation_None lines op Hint). }
  split; [exact Hiff|].
  intros Hall. destruct (GenerateEditPreview lines operations) eqn:Hg; [done|].
  exfalso. destruct (proj1 Hiff eq_refl) as (op & Hin & Hneg & _).
  rewrite Forall_forall in Hall. specialize (Hall op Hin).
  unfold op_in_range in Hall. unfold is_int in Hint.
  rewrite wrap64_int in Hneg by (unfold is_int; lia). lia.
Qed.

Lemma GenerateEditPreview_fault_witness :
  let lines := ["a"; "b"]%string in
  is_int (len lines) /\
  GenerateEditPreview lines [mkEditOperation 0 1 "X" ""] = None /\
  is_Some (GenerateEditPreview lines [mkEditOperation 1 2 "X" ""]).
Proof.
  cbv zeta.
  assert (Hint : is_int (len ["a"; "b"]%string)).
  { unfold is_int, len. cbn [length]. lia. }
  split; [exact Hint|]. split; [reflexivity|].
  apply (proj2 (GenerateEditPreview_fault _ _ Hint)).
  apply Forall_cons. split; [|apply Forall_nil_2].
  unfold op_in_range, len. cbn [StartLine EndLine length]. lia.
Defined.

(** ** The single-file handler *)

Lemma set_files_set_files w fs fs' :
  set_files (set_files w fs) fs' = set_files w fs'.
Proof. done. Qed.

Lemma apply_and_write_ok (path : string) (sortedOps : list EditOperation) :
  forall w lines i result,
    path ∉ nowrite w -> sortedOps <> [] ->
    apply_operations lines sortedOps = Some result ->
    apply_and_write w path lines i sortedOps =
    (None, set_files w (<[path := JoinLines result]> (files w))).
Proof.
  induction sortedOps as [|op rest IH]; intros w lines i result Hw Hne Happly;
    [done|].
  cbn [apply_operations] in Happly. cbn [apply_and_write].
  destruct (apply_operation lines op) as [newLines|]; [|done].
  cbn in Happly. unfold os.WriteFile. rewrite decide_False by done.
  destruct rest as [|op' rest'].
  - cbn in Happly. injection Happly as <-. done.
  - rewrite (IH _ newLines (i + 1) result); [|done|done|done].
    rewrite set_files_set_files.
    change (files (set_files w ?fs)) with fs. by rewrite insert_insert_eq.
Qed.

Lemma CreateBackup_nowrite w filePath r w' :
  CreateBackup w filePath = (r, w') -> nowrite w' = nowrite w.
Proof.
  unfold CreateBackup.
  destruct (os.ReadFile w filePath) as [content|e]; [|by intros [= _ <-]].
  unfold os.WriteFile. case_decide; by intros [= _ <-].
Qed.

(** X4. With at least one operation and a target that can be written,
    the non-atomic mode of the single-file edit (one write after every
    operation) ends with the same result and the same world as the atomic
    mode (one write at the end), whenever the atomic run does not fault. *)
Theorem HandleEditFile_modes_agree w path operations createBackup
    validateOperations showPreview :
  operations <> [] ->
  path ∉ nowrite w ->
  fst (HandleEditFile w path operations createBackup validateOperations
         showPreview true) <> Panic ->
  HandleEditFile w path operations createBackup validateOperations
    showPreview false =
  HandleEditFile w path operations createBackup validateOperations
    showPreview true.
Proof.
  intros Hne Hw. unfold HandleEditFile.
  destruct (IsPathAllowed w path) as [[]|]; [|done..].
  destruct (os.ReadFile w path) as [content|err]; [|done].
  destruct (if validateOperations then _ else _); [done|].
  destruct showPreview; [done|].
  destruct (if createBackup then CreateBackup w path else (inl "", w))
    as [[backupPath|err] w1] eqn:Hb; [|done].
  assert (Hw1 : path ∉ nowrite w1).
  { destruct createBackup; [|by injection Hb as _ <-].
    by rewrite (CreateBackup_nowrite _ _ _ _ Hb). }
  destruct (apply_operations (SplitLines content)
              (SortOperationsByLine operations)) as [result|] eqn:Ha;
    [|done].
  intros _.
  rewrite (apply_and_write_ok path _ w1 (SplitLines content) 0 result);
    [|done| |done].
  - unfold os.WriteFile. by rewrite decide_False.
  - intros Hnil. apply Hne.
    apply Permutation_nil_r. rewrite <- Hnil.
    symmetry. apply exchange_sort_perm.
Qed.

Lemma HandleEditFile_modes_agree_witness :
  let w := mkWorld {[ "/tmp/a.txt" := "a" +:+ strings.LF +:+ "b" ]} ∅ ∅ 100
             None ["/tmp"]%string in
  let ops := [mkEditOperation 1 1 "X" ""; mkEditOperation 2 2 "Y" ""] in
  ops <> [] /\ ("/tmp/a.txt"%string ∉ nowrite w) /\
  HandleEditFile w "/tmp/a.txt" ops true true false false =
  HandleEditFile w "/tmp/a.txt" ops true true false true.
Proof.
  cbv zeta. split; [done|]. split; [set_solver|].
  apply HandleEditFile_modes_agree; [done|set_solver|].
  by vm_compute.
Defined.

(** X5. With an empty list of operations the two modes differ: the
    atomic mode still writes the file, with its line endings normalized,
    and the non-atomic mode writes nothing. *)
Theorem HandleEditFile_no_operations w path content validateOperations :
  IsPathAllowed w path = Some true ->
  os.ReadFile w path = inl content ->
  path ∉ nowrite w ->
  HandleEditFile w path [] false validateOperations false true =
    (NewToolResultText ("Successfully applied 0 operations to " +:+ path),
     set_files w (<[path := normalize_spec content]> (files w))) /\
  HandleEditFile w path [] false validateOperations false false =
    (NewToolResultText ("Successfully applied 0 operations to " +:+ path), w).
Proof.
  intros Hallowed Hread Hw. unfold HandleEditFile.
  rewrite Hallowed, Hread.
  assert (Hv : (if validateOperations
                then ValidateEditOperations (SplitLines content) []
                else None) = None) by (by destruct validateOperations).
  rewrite Hv. cbn [SortOperationsByLine apply_operations apply_and_write].
  change (SortOperationsByLine []) with (@nil EditOperation).
  cbn [apply_operations apply_and_write]. split; [|done].
  unfold os.WriteFile. rewrite decide_False by done.
  unfold JoinLines, SplitLines.
  rewrite (two_passes_normalize (String.length content)) by done.
  unfold strings.LF. by rewrite Join_Split_single.
Qed.

Lemma HandleEditFile_no_operations_witness :
  let content := "a" +:+ strings.CRLF +:+ "b" in
  let w := mkWorld {[ "/tmp/a.txt" := content ]} ∅ ∅ 100 None
             ["/tmp"]%string in
  IsPathAllowed w "/tmp/a.txt" = Some true /\
  os.ReadFile w "/tmp/a.txt" = inl content /\
  ("/tmp/a.txt"%string ∉ nowrite w) /\
  files (snd (HandleEditFile w "/tmp/a.txt" [] false true false true))
    !! "/tmp/a.txt"%string = Some ("a" +:+ strings.LF +:+ "b") /\
  snd (HandleEditFile w "/tmp/a.txt" [] false true false false) = w.
Proof.
  cbv zeta.
  pose proof (HandleEditFile_no_operations
    (mkWorld {[ "/tmp/a.txt" := "a" +:+ strings.CRLF +:+ "b" ]} ∅ ∅ 100 None
       ["/tmp"]%string)
    "/tmp/a.txt" ("a" +:+ strings.CRLF +:+ "b") true
    eq_refl eq_refl) as H.
  split; [reflexivity|]. split; [reflexivity|]. split; [set_solver|].
  destruct H as [H1 H2]; [set_solver|].
  rewrite H1, H2. split; reflexivity.
Defined.



(** ** The batch handler *)

Lemma IsPathAllowed_total w path :
  cwd w <> Some "" -> exists b, IsPathAllowed w path = Some b.
Proof.
  intros Hcwd. unfold IsPathAllowed.
  destruct (filepath.Abs w path) as [a|] eqn:Ha; [|by exists false].
  destruct (allowed_in_within w a (AllowedDirectories w) Hcwd) as (b & Hb & _).
  - by destruct (Abs_shape _ _ _ Hcwd Ha).
  - by exists b.
Qed.

Lemma validate_files_nonatomic w fileRequests :
  cwd w <> Some "" ->
  forall i errors, exists errors',
    validate_files w false i fileRequests errors = inr errors'.
Proof.
  intros Hcwd. induction fileRequests as [|fileReq rest IH]; intros i errors;
    cbn [validate_files]; [by eexists|].
  destruct (IsPathAllowed_total w (Path fileReq) Hcwd) as [[] ->]; [|apply IH].
  destruct (os.ReadFile w (Path fileReq)); [|apply IH].
  destruct (ValidateEditOperations _ _); apply IH.
Qed.

Lemma file_failed_kind atomic continueOnError w results errors results'
    errors' errMsg :
  flow_kind (file_failed atomic continueOnError w results errors errMsg) =
  flow_kind (file_failed atomic continueOnError w results' errors' errMsg).
Proof. unfold file_failed. by repeat case_match. Qed.

Lemma process_file_kind atomic dryRun continueOnError w i fileReq results
    errors results' errors' :
  flow_kind (process_file atomic dryRun continueOnError w i fileReq
               results errors) =
  flow_kind (process_file atomic dryRun continueOnError w i fileReq
               results' errors').
Proof.
  unfold process_file.
  repeat case_match; simplify_eq; try done; apply file_failed_kind.
Qed.

Lemma process_files_kind atomic dryRun continueOnError fileRequests :
  forall w i results errors results' errors',
    flow_kind (process_files atomic dryRun continueOnError w i fileRequests
                 results errors) =
    flow_kind (process_files atomic dryRun continueOnError w i fileRequests
                 results' errors').
Proof.
  induction fileRequests as [|fileReq rest IH];
    intros w i results errors results' errors'; cbn [process_files]; [done|].
  pose proof (process_file_kind atomic dryRun continueOnError w i fileReq
                results errors results' errors') as Hk.
  destruct (process_file atomic dryRun continueOnError w i fileReq
              results errors) as [w1 r1 e1|w1 r1 e1|res1 w1],
           (process_file atomic dryRun continueOnError w i fileReq
              results' errors') as [w2 r2 e2|w2 r2 e2|res2 w2];
    cbn in Hk; simplify_eq; first [done | apply IH].
Qed.

(** X7. In a batch that is not atomic the validation pass decides
    nothing about the writes: with or without validate_all the same files
    are processed and the same world results.  A file whose operations
    the pass found invalid is edited all the same; only the report
    differs. *)
Theorem validate_all_does_not_gate_writes w fileRequests dryRun
    continueOnError :
  cwd w <> Some "" ->
  snd (HandleEditMultipleFiles w fileRequests false dryRun continueOnError
         true) =
  snd (HandleEditMultipleFiles w fileRequests false dryRun continueOnError
         false).
Proof.
  intros Hcwd. unfold HandleEditMultipleFiles. cbn [orb andb].
  destruct (validate_files_nonatomic w fileRequests Hcwd 0 []) as [errs ->].
  pose proof (process_files_kind false dryRun continueOnError fileRequests
                w 0 [] errs [] []) as Hk.
  destruct (process_files false dryRun continueOnError w 0 fileRequests
              [] errs),
           (process_files false dryRun continueOnError w 0 fileRequests
              [] []); cbn in Hk; by simplify_eq.
Qed.

(** An operation with start 3 and end 2 is refused by validation; in a
    batch that is not atomic the error is reported and the operation is
    applied: line 3 is kept and the replacement is put before it. *)
Lemma validate_all_does_not_gate_writes_witness :
  let w := mkWorld {[ "/tmp/a.txt" :=
                        "a" +:+ strings.LF +:+ "b" +:+ strings.LF +:+ "c" ]}
             ∅ ∅ 100 (Some "/"%string) ["/tmp"]%string in
  let batch := [mkFileEditRequest "/tmp/a.txt"
                  [mkEditOperation 3 2 "X" ""] false] in
  cwd w <> Some ""%string /\
  ValidateEditOperations ["a"; "b"; "c"]%string [mkEditOperation 3 2 "X" ""]
    = Some (StartAfterEnd 1 3 2) /\
  snd (HandleEditMultipleFiles w batch false false false true) =
  snd (HandleEditMultipleFiles w batch false false false false) /\
  files (snd (HandleEditMultipleFiles w batch false false false true))
    !! "/tmp/a.txt"%string
  = Some (JoinLines ["a"; "b"; "X"; "c"]%string).
Proof.
  cbv zeta. split; [done|]. split; [reflexivity|]. split.
  - by apply validate_all_does_not_gate_writes.
  - reflexivity.
Defined.

Lemma validate_files_atomic_bad w fileRequests :
  forall i errors,
    (exists fileReq, fileReq ∈ fileRequests /\
       (IsPathAllowed w (Path fileReq) <> Some true \/
        (forall content, os.ReadFile w (Path fileReq) <> inl content) \/
        (exists content, os.ReadFile w (Path fileReq) = inl content /\
           ValidateEditOperations (SplitLines content) (Operations fileReq)
             <> None))) ->
    exists result, validate_files w true i fileRequests errors = inl result /\
                   forall text, result <> NewToolResultText text.
Proof.
  induction fileRequests as [|fileReq rest IH]; intros i errors
    (bad & Hin & Hbad); [by apply elem_of_nil in Hin|].
  cbn [validate_files].
  destruct (IsPathAllowed w (Path fileReq)) as [[]|] eqn:Hallowed;
    [|by eexists..].
  destruct (os.ReadFile w (Path fileReq)) as [content|err] eqn:Hread;
    [|by eexists].
  destruct (ValidateEditOperations (SplitLines content) (Operations fileReq))
    eqn:Hvalid; [by eexists|].
  apply IH. apply elem_of_cons in Hin as [->|Hin]; [|by exists bad].
  exfalso. destruct Hbad as [Hbad|[Hbad|(c & Hc & Hbad)]].
  - done.
  - by apply (Hbad content).
  - assert (c = content) as -> by congruence. done.
Qed.

(** X8. An atomic batch in which some file is outside the allow-list,
    cannot be read, or has operations that fail validation on its
    content, is refused before anything is written: the handler does not
    report success and returns the world it received, for every file of
    the batch and with or without a dry run. *)
Theorem atomic_batch_refused_untouched w fileRequests dryRun continueOnError
    validateAll :
  (exists fileReq, fileReq ∈ fileRequests /\
     (IsPathAllowed w (Path fileReq) <> Some true \/
      (forall content, os.ReadFile w (Path fileReq) <> inl content) \/
      (exists content, os.ReadFile w (Path fileReq) = inl content /\
         ValidateEditOperations (SplitLines content) (Operations fileReq)
           <> None))) ->
  snd (HandleEditMultipleFiles w fileRequests true dryRun continueOnError
         validateAll) = w /\
  forall text,
    fst (HandleEditMultipleFiles w fileRequests true dryRun continueOnError
           validateAll) <> NewToolResultText text.
Proof.
  intros Hbad. unfold HandleEditMultipleFiles. rewrite orb_true_r.
  destruct (validate_files_atomic_bad w fileRequests 0 [] Hbad)
    as (result & -> & Hres).
  by split.
Qed.

Lemma atomic_batch_refused_untouched_witness :
  let w := mkWorld {[ "/tmp/a.txt" := "a" +:+ strings.LF +:+ "b";
                      "/tmp/b.txt" := "1" ]}%string ∅ ∅ 100 None
             ["/tmp"]%string in
  let batch :=
    [mkFileEditRequest "/tmp/a.txt" [mkEditOperation 1 1 "X" ""] true;
     mkFileEditRequest "/tmp/b.txt" [mkEditOperation 2 2 "Y" ""] false] in
  ValidateEditOperations (SplitLines "1")
    [mkEditOperation 2 2 "Y" ""] <> None /\
  snd (HandleEditMultipleFiles w batch true false false true) = w.
Proof.
  cbv zeta. split; [done|].
  apply atomic_batch_refused_untouched.
  exists (mkFileEditRequest "/tmp/b.txt" [mkEditOperation 2 2 "Y" ""] false).
  split; [set_solver|]. right; right. exists "1"%string. by split.
Defined.

(** ** The block edit *)

(** X9. [ValidateLineRange] accepts a range exactly when
    1 <= start <= end <= total, and then exactly when
    [ValidateEditOperations] accepts the single operation with that
    range on a buffer of that many lines. *)
Theorem ValidateLineRange_accepts (startLine endLine : Z)
    (lines : list string) (replacement description : string) :
  (ValidateLineRange startLine endLine (len lines) = None <->
   1 <= startLine /\ startLine <= endLine /\ endLine <= len lines) /\
  (ValidateLineRange startLine endLine (len lines) = None <->
   ValidateEditOperations lines
     [mkEditOperation startLine endLine replacement description] = None).
Proof.
  assert (H1 : ValidateLineRange startLine endLine (len lines) = None <->
               1 <= startLine /\ startLine <= endLine /\ endLine <= len lines).
  { unfold ValidateLineRange.
    destruct (Z.ltb_spec startLine 1); [split; [done|lia]|].
    destruct (Z.ltb_spec endLine 1); [split; [done|lia]|].
    destruct (Z.gtb_spec startLine (len lines)); [split; [done|lia]|].
    destruct (Z.gtb_spec endLine (len lines)); [split; [done|lia]|].
    destruct (Z.gtb_spec startLine endLine); [split; [done|lia]|].
    split; [lia|done]. }
  split; [exact H1|]. rewrite H1, Validate_None. split.
  - intros (? & ? & ?). split.
    + apply Forall_cons. split; [|apply Forall_nil_2].
      unfold op_in_range. cbn. lia.
    + intros [|[|a]] [|[|b]] opa opb Hab Ha Hb; cbn in Ha, Hb; done || lia.
  - intros [[Hop _]%Forall_cons _]. unfold op_in_range in Hop. cbn in Hop. lia.
Qed.

Lemma apply_operation_int lines op :
  is_int (StartLine op) ->
  1 <= StartLine op -> StartLine op <= EndLine op -> EndLine op <= len lines ->
  apply_operation lines op =
  Some (take (Z.to_nat (StartLine op - 1)) lines
          ++ SplitLines (Replacement op)
          ++ drop (Z.to_nat (EndLine op)) lines).
Proof.
  unfold is_int. intros Hint Hs Hse He. unfold apply_operation.
  rewrite wrap64_int by (unfold is_int; lia).
  unfold slice_to, slice_from.
  destruct (Z.leb_spec 0 (StartLine op - 1)); [|lia].
  destruct (Z.leb_spec (StartLine op - 1) (len lines)); [|lia].
  destruct (Z.leb_spec 0 (EndLine op)); [|lia].
  destruct (Z.leb_spec (EndLine op) (len lines)); [|lia].
  done.
Qed.

(** X10. A block edit without syntax validation and a single-file edit
    with the one operation made of the same range and replacement (with
    validation, atomic, no preview) leave the same world, and one reports
    success exactly when the other does. *)
Theorem HandleEditBlock_as_HandleEditFile (ToLower : string -> string) w path
    startLine endLine replacement showDiff createBackup :
  is_int startLine ->
  let block := HandleEditBlock ToLower w path startLine endLine replacement
                 showDiff createBackup false in
  let single := HandleEditFile w path
                  [mkEditOperation startLine endLine replacement ""]
                  createBackup true false true in
  snd block = snd single /\
  ((exists text, fst block = NewToolResultText text) <->
   (exists text, fst single = NewToolResultText text)).
Proof.
  intros Hint. cbv zeta. unfold HandleEditBlock, HandleEditFile.
  destruct (IsPathAllowed w path) as [[]|];
    [|split; [done|split; by intros [? ?]]..].
  destruct (os.ReadFile w path) as [content|err];
    [|split; [done|split; by intros [? ?]]].
  pose proof (ValidateLineRange_accepts startLine endLine (SplitLines content)
                replacement "") as [Hr Hv].
  destruct (ValidateLineRange startLine endLine (len (SplitLines content)))
    as [err|] eqn:Hrange.
  { destruct (ValidateEditOperations (SplitLines content) _) as [e|] eqn:He.
    - split; [done|split; by intros [? ?]].
    - by pose proof (proj2 Hv eq_refl). }
  rewrite (proj1 Hv eq_refl).
  destruct (proj1 Hr eq_refl) as (Hs & Hse & He).
  destruct (if createBackup then CreateBackup w path else (inl "", w))
    as [[backupPath|err] w1]; [|split; [done|split; by intros [? ?]]].
  change (SortOperationsByLine [?op]) with [op]. cbn [apply_operations].
  rewrite (apply_operation_int (SplitLines content)) by done.
  cbn [mbind option_bind StartLine EndLine Replacement].
  unfold slice_range. rewrite wrap64_int by (unfold is_int in *; lia).
  destruct (Z.leb_spec 0 (startLine - 1)); [|lia].
  destruct (Z.leb_spec (startLine - 1) endLine); [|lia].
  destruct (Z.leb_spec endLine (len (SplitLines content))); [|lia].
  cbn [andb].
  destruct (os.WriteFile w1 path _) as [w2|err];
    [|split; [done|split; by intros [? ?]]].
  split; [done|]. split; intros _; by eexists.
Qed.

Lemma HandleEditBlock_as_HandleEditFile_witness :
  let w := mkWorld {[ "/tmp/a.txt" :=
                        "a" +:+ strings.LF +:+ "b" +:+ strings.LF +:+ "c" ]}
             ∅ ∅ 100 None ["/tmp"]%string in
  is_int 2 /\
  snd (HandleEditBlock (fun s => s) w "/tmp/a.txt" 2 3 "X" true true false) =
  snd (HandleEditFile w "/tmp/a.txt" [mkEditOperation 2 3 "X" ""]
         true true false true) /\
  files (snd (HandleEditBlock (fun s => s) w "/tmp/a.txt" 2 3 "X" true true
                false)) !! "/tmp/a.txt"%string
  = Some ("a" +:+ strings.LF +:+ "X").
Proof.
  cbv zeta.
  assert (Hint : is_int 2) by (unfold is_int; lia).
  split; [exact Hint|]. split; [|reflexivity].
  exact (proj1 (HandleEditBlock_as_HandleEditFile (fun s => s) _ _ _ _ _ true
                  true Hint)).
Defined.

(** X11. With syntax validation a block edit writes the target only
    when its extension is one of the recognized text extensions and the
    new content is not empty; otherwise it does not report success and the
    target is as it was (a requested backup may have been made). *)
Theorem HandleEditBlock_syntax_gate (ToLower : string -> string) w path
    startLine endLine replacement showDiff createBackup :
  let run := HandleEditBlock ToLower w path startLine endLine replacement
               showDiff createBackup true in
  (IsTextFile ToLower path = false ->
   (forall text, fst run <> NewToolResultText text) /\
   files (snd run) !! path = files w !! path) /\
  (forall text, fst run = NewToolResultText text ->
   IsTextFile ToLower path = true /\
   exists newContent,
     newContent <> "" /\ files (snd run) !! path = Some newContent).
Proof.
  cbv zeta. unfold HandleEditBlock.
  destruct (IsPathAllowed w path) as [[]|]; [|by split..].
  destruct (os.ReadFile w path) as [content|err]; [|by split].
  destruct (ValidateLineRange _ _ _); [by split|].
  assert (Hb : forall r w1,
    (if createBackup then CreateBackup w path else (inl "", w)) = (r, w1) ->
    files w1 !! path = files w !! path).
  { intros r w1. destruct createBackup; [|by intros [= _ <-]].
    destruct r as [backupPath|err].
    - intros (c & _ & -> & ->)%CreateBackup_inl. cbn.
      apply lookup_insert_ne, backup_path_ne.
    - by intros ->%CreateBackup_inr. }
  destruct (if createBackup then CreateBackup w path else (inl "", w))
    as [[backupPath|err] w1] eqn:Hcb; specialize (Hb _ _ eq_refl);
    [|by split].
  destruct (slice_range _ _ _); [|by split].
  destruct (apply_operation _ _) as [newLines|]; [|by split].
  unfold ValidateFileSyntax.
  destruct (bool_decide (path = "") || bool_decide (JoinLines newLines = ""))
    eqn:Hempty; [by split|].
  destruct (IsTextFile ToLower path) eqn:Htext; cbn [negb]; [|by split].
  destruct (os.WriteFile w1 path (JoinLines newLines)) as [w2|err] eqn:Hw;
    [|by split].
  split; [done|]. intros text _. split; [done|].
  exists (JoinLines newLines). split.
  - apply orb_false_iff in Hempty as [_ Hne]. by apply bool_decide_eq_false in Hne.
  - apply WriteFile_inl in Hw as [_ ->]. cbn. by rewrite lookup_insert_eq.
Qed.

Lemma HandleEditBlock_syntax_gate_witness :
  let w := mkWorld {[ "/tmp/a.bin" := "a" ]}%string ∅ ∅ 100 None
             ["/tmp"]%string in
  IsTextFile (fun s => s) "/tmp/a.bin" = false /\
  files (snd (HandleEditBlock (fun s => s) w "/tmp/a.bin" 1 1 "X" true true
                true)) !! "/tmp/a.bin"%string = files w !! "/tmp/a.bin"%string.
Proof.
  cbv zeta. split; [reflexivity|].
  apply (proj1 (HandleEditBlock_syntax_gate (fun s => s) _ "/tmp/a.bin" 1 1
                  "X" true true)). reflexivity.
Defined.

(** ** Code formatting *)

(** X12. Formatting is not implemented: [FormatCodeFile] returns an
    error for every input, so the handler never reports success and never
    changes the target; when a backup was requested and could be made it
    is the only change to the file system. *)
Theorem HandleFormatCode_never_formats w path formatter createBackup
    configFile :
  let run := HandleFormatCode w path formatter createBackup configFile in
  (forall w' p, FormatCodeFile w' p formatter configFile <> None) /\
  (forall text, fst run <> NewToolResultText text) /\
  files (snd run) !! path = files w !! path /\
  (forall other, other <> path +:+ ".backup." +:+ pretty (now w) ->
     files (snd run) !! other = files w !! other).
Proof.
  cbv zeta.
  assert (Hf : forall w' p, FormatCodeFile w' p formatter configFile <> None).
  { intros w' p. unfold FormatCodeFile. by repeat case_match. }
  split; [exact Hf|]. unfold HandleFormatCode.
  destruct (IsPathAllowed w path) as [[]|]; [|by repeat split..].
  destruct createBackup.
  - destruct (CreateBackup w path) as [[backupPath|err] w1] eqn:Hb.
    + apply CreateBackup_inl in Hb as (c & _ & -> & ->).
      destruct (FormatCodeFile _ path formatter configFile) eqn:Hfmt;
        [|by apply Hf in Hfmt].
      repeat split; [done|..].
      * cbn. apply lookup_insert_ne, backup_path_ne.
      * intros other Hne. cbn. by rewrite lookup_insert_ne.
    + apply CreateBackup_inr in Hb as ->. by repeat split.
  - destruct (FormatCodeFile w path formatter configFile) eqn:Hfmt;
      [by repeat split|by apply Hf in Hfmt].
Qed.

(** ** Insertions *)

Lemma slice_to_from_sublist (lines head tail middle : list string) k :
  slice_to lines k = Some head -> slice_from lines k = Some tail ->
  lines `sublist_of` head ++ middle ++ tail /\
  length (head ++ middle ++ tail) = (length lines + length middle)%nat.
Proof.
  unfold slice_to, slice_from.
  destruct ((0 <=? k) && (k <=? len lines)); [|done].
  intros [= <-] [= <-]. split.
  - rewrite <- (take_drop (Z.to_nat k) lines) at 1.
    apply sublist_app; [done|]. by apply sublist_inserts_l.
  - rewrite !length_app.
    rewrite <- (take_drop (Z.to_nat k) lines) at 3. rewrite length_app. lia.
Qed.

Lemma apply_insertion_keeps lines insertion newLines :
  apply_insertion lines insertion = Some (inl newLines) ->
  lines `sublist_of` newLines /\
  length newLines =
  (length lines + length (SplitLines (Content insertion)))%nat.
Proof.
  unfold apply_insertion.
  destruct ((Line insertion <? 1) || _); [done|].
  destruct (Before insertion).
  - destruct (slice_to lines _) as [head|] eqn:Hh; [|done].
    destruct (slice_from lines _) as [tail|] eqn:Ht; [|done].
    cbn. intros [= <-]. by eapply slice_to_from_sublist.
  - destruct (slice_to lines _) as [head|] eqn:Hh; [|done].
    destruct (slice_from lines _) as [tail|] eqn:Ht; [|done].
    cbn. intros [= <-]. by eapply slice_to_from_sublist.
Qed.

Lemma apply_insertions_keep insertions :
  forall lines newLines,
    apply_insertions lines insertions = Some (inl newLines) ->
    lines `sublist_of` newLines /\
    length newLines =
    (length lines
     + sum_list_with (fun i => length (SplitLines (Content i))) insertions)%nat.
Proof.
  induction insertions as [|insertion rest IH]; intros lines newLines;
    cbn [apply_insertions sum_list_with].
  - intros [= <-]. split; [done|lia].
  - destruct (apply_insertion lines insertion) as [[mid|err]|] eqn:Hi;
      [|done..].
    apply apply_insertion_keeps in Hi as [Hs Hl].
    intros [Hs' Hl']%IH. split; [by etrans|lia].
Qed.

(** X13. Insertions never remove or reorder a line: when
    [ApplyTextInsertions] succeeds on a non-empty request, the lines of
    the original text are a subsequence of the lines of the result, and
    the result has as many lines more as the inserted texts have lines. *)
Theorem ApplyTextInsertions_keeps_lines content insertions adjustLineNumbers
    text :
  insertions <> [] ->
  ApplyTextInsertions content insertions adjustLineNumbers
    = Some (text, None) ->
  exists newLines,
    text = JoinLines newLines /\
    SplitLines content `sublist_of` newLines /\
    length newLines =
    (length (SplitLines content)
     + sum_list_with (fun i => length (SplitLines (Content i))) insertions)%nat.
Proof.
  intros Hne. unfold ApplyTextInsertions.
  destruct (Z.eqb_spec (len insertions) 0) as [Hz|_].
  { destruct insertions; [done|]. unfold len in Hz. cbn in Hz. lia. }
  destruct (apply_insertions _ _) as [[newLines|err]|] eqn:Ha; [|done..].
  intros [= <-]. exists newLines. split; [done|].
  apply apply_insertions_keep in Ha as [Hs Hl]. split; [done|].
  rewrite Hl. f_equal. unfold sort_insertions.
  by rewrite (exchange_sort_perm Line insertions).
Qed.

Lemma ApplyTextInsertions_keeps_lines_witness :
  let content := "a" +:+ strings.LF +:+ "b" in
  let insertions := [mkTextInsertion 1 "X" true;
                     mkTextInsertion 2 ("Y" +:+ strings.LF +:+ "Z") false] in
  insertions <> [] /\
  ApplyTextInsertions content insertions true =
    Some (JoinLines ["X"; "a"; "b"; "Y"; "Z"]%string, None) /\
  exists newLines,
    JoinLines ["X"; "a"; "b"; "Y"; "Z"]%string = JoinLines newLines /\
    SplitLines content `sublist_of` newLines /\
    length newLines =
    (length (SplitLines content)
     + sum_list_with (fun i => length (SplitLines (Content i))) insertions)%nat.
Proof.
  cbv zeta. split; [done|]. split; [reflexivity|].
  apply (ApplyTextInsertions_keeps_lines _ _ true); [done|reflexivity].
Defined.

Lemma apply_insertions_bad insertions :
  forall lines bad,
    bad ∈ insertions -> Line bad < 1 ->
    forall newLines, apply_insertions lines insertions <> Some (inl newLines).
Proof.
  induction insertions as [|insertion rest IH]; intros lines bad Hin Hbad
    newLines; [by apply elem_of_nil in Hin|].
  cbn [apply_insertions].
  apply elem_of_cons in Hin as [<-|Hin].
  - unfold apply_insertion. destruct (Z.ltb_spec (Line bad) 1); [done|lia].
  - destruct (apply_insertion lines insertion) as [[mid|err]|]; [|done..].
    by apply (IH mid bad).
Qed.

(** X14. One insertion with a line number below 1, anywhere in the
    request, stops the whole request: the handler does not report success
    and the target file is as it was, whatever the other insertions are
    (a requested backup has been made by then). *)
Theorem HandleInsertText_bad_line w path insertions createBackup
    adjustLineNumbers bad :
  bad ∈ insertions -> Line bad < 1 ->
  let run := HandleInsertText w path insertions createBackup
               adjustLineNumbers in
  (forall text, fst run <> NewToolResultText text) /\
  files (snd run) !! path = files w !! path.
Proof.
  intros Hin Hbad. cbv zeta. unfold HandleInsertText.
  destruct (IsPathAllowed w path) as [[]|]; [|by split..].
  destruct (os.ReadFile w path) as [content|err]; [|by split].
  assert (Hb : forall r w1,
    (if createBackup then CreateBackup w path else (inl "", w)) = (r, w1) ->
    files w1 !! path = files w !! path).
  { intros r w1. destruct createBackup; [|by intros [= _ <-]].
    destruct r as [backupPath|err].
    - intros (c & _ & -> & ->)%CreateBackup_inl. cbn.
      apply lookup_insert_ne, backup_path_ne.
    - by intros ->%CreateBackup_inr. }
  destruct (if createBackup then CreateBackup w path else (inl "", w))
    as [[backupPath|err] w1] eqn:Hcb; specialize (Hb _ _ eq_refl);
    [|by split].
  unfold ApplyTextInsertions.
  destruct (Z.eqb_spec (len insertions) 0) as [Hz|_].
  { destruct insertions; [by apply elem_of_nil in Hin|].
    unfold len in Hz. cbn in Hz. lia. }
  assert (Hsorted : bad ∈ sort_insertions insertions).
  { unfold sort_insertions. by rewrite (exchange_sort_perm Line insertions). }
  pose proof (apply_insertions_bad _ (SplitLines content) bad Hsorted Hbad)
    as Hno.
  destruct (apply_insertions _ _) as [[newLines|err]|]; [|by split..].
  by destruct (Hno newLines).
Qed.

Lemma HandleInsertText_bad_line_witness :
  let w := mkWorld {[ "/tmp/a.txt" := "a" ]}%string ∅ ∅ 100 None
             ["/tmp"]%string in
  let insertions := [mkTextInsertion 1 "X" true; mkTextInsertion 0 "Y" true] in
  mkTextInsertion 0 "Y" true ∈ insertions /\
  Line (mkTextInsertion 0 "Y" true) < 1 /\
  files (snd (HandleInsertText w "/tmp/a.txt" insertions true true))
    !! "/tmp/a.txt"%string = files w !! "/tmp/a.txt"%string.
Proof.
  cbv zeta.
  assert (Hin : mkTextInsertion 0 "Y" true ∈
                [mkTextInsertion 1 "X" true; mkTextInsertion 0 "Y" true])
    by set_solver.
  assert (Hbad : Line (mkTextInsertion 0 "Y" true) < 1) by (cbn; lia).
  split; [exact Hin|]. split; [exact Hbad|].
  exact (proj2 (HandleInsertText_bad_line _ "/tmp/a.txt" _ true true _
                  Hin Hbad)).
Defined.

(** X15. The line check of an insertion accepts the line number one past
    the last line.  Before that line the text is appended to the buffer;
    after that line the slice [lines[:line]] is out of range and the
    function faults. *)
Theorem ApplyTextInsertions_past_the_end content inserted adjustLineNumbers :
  let lines := SplitLines content in
  is_int (len lines + 1) ->
  ApplyTextInsertions content
    [mkTextInsertion (len lines + 1) inserted true] adjustLineNumbers
    = Some (JoinLines (lines ++ SplitLines inserted), None) /\
  ApplyTextInsertions content
    [mkTextInsertion (len lines + 1) inserted false] adjustLineNumbers
    = None.
Proof.
  cbv zeta. intros Hint. unfold ApplyTextInsertions.
  change (len [?i] =? 0) with false. cbv iota.
  change (sort_insertions [?i]) with [i].
  set (lines := SplitLines content) in *. clearbody lines.
  cbn [apply_insertions]. unfold apply_insertion.
  cbn [Line Content Before].
  generalize (SplitLines inserted). intros insertLines.
  rewrite (wrap64_int (len lines + 1)) by done.
  assert (Hlen : 0 <= len lines) by (unfold len; lia).
  destruct (Z.ltb_spec (len lines + 1) 1); [lia|].
  destruct (Z.gtb_spec (len lines + 1) (len lines + 1)); [lia|]. cbn [orb].
  split.
  - replace (len lines + 1 - 1) with (len lines) by lia.
    rewrite wrap64_int by (unfold is_int in *; lia).
    unfold slice_to, slice_from.
    destruct (Z.leb_spec 0 (len lines)); [|lia].
    rewrite Z.leb_refl. cbn [andb mbind option_bind]. unfold len.
    rewrite Nat2Z.id. rewrite take_ge by done. rewrite drop_ge by done.
    by rewrite app_nil_r.
  - unfold slice_to.
    destruct (Z.leb_spec (len lines + 1) (len lines)); [lia|].
    by rewrite andb_false_r.
Qed.

Lemma ApplyTextInsertions_past_the_end_witness :
  let content := "a" +:+ strings.LF +:+ "b" in
  is_int (len (SplitLines content) + 1) /\
  ApplyTextInsertions content [mkTextInsertion 3 "Z" true] true
    = Some (JoinLines ["a"; "b"; "Z"]%string, None) /\
  ApplyTextInsertions content [mkTextInsertion 3 "Z" false] true = None.
Proof.
  cbv zeta.
  assert (Hint : is_int (len (SplitLines ("a" +:+ strings.LF +:+ "b")) + 1)).
  { unfold is_int. split; by vm_compute. }
  split; [exact Hint|].
  exact (ApplyTextInsertions_past_the_end ("a" +:+ strings.LF +:+ "b") "Z"
           true Hint).
Defined.

(** ** Replacement, case-sensitive mode *)

Lemma prefix_length (p s : string) :
  String.prefix p s = true -> (String.length p <= String.length s)%nat.
Proof. intros [r ->]%prefix_app. rewrite str_length_app. lia. Qed.

Lemma go_count_nonneg old s : forall skip, 0 <= strings.go_count old skip s.
Proof.
  induction s as [|c s IH]; intros skip; cbn [strings.go_count]; [done|].
  destruct skip; [|apply IH].
  destruct (String.prefix old (String c s)); [|apply IH].
  specialize (IH (String.length old - 1)%nat). lia.
Qed.

(** The length of the text after replacement, in terms of the number of
    occurrences: [n] bounds the replacements when it is not negative. *)
Lemma go_replace_length old new s :
  old <> "" ->
  forall skip n, (skip <= String.length s)%nat ->
  slen (strings.go_replace old new skip n s) =
  slen s - Z.of_nat skip
  + (if n <? 0 then strings.go_count old skip s
     else Z.min n (strings.go_count old skip s)) * (slen new - slen old).
Proof.
  intros Hold. unfold slen.
  induction s as [|c s IH]; intros skip n Hskip.
  - cbn in Hskip. assert (skip = 0%nat) as -> by lia. cbn.
    destruct (Z.ltb_spec n 0); lia.
  - destruct skip as [|k].
    + cbn [strings.go_replace strings.go_count].
      pose proof (go_count_nonneg old s 0) as Hc0.
      pose proof (go_count_nonneg old s (String.length old - 1)) as Hc1.
      destruct (Z.eqb_spec n 0) as [->|Hn].
      { destruct (String.prefix old (String c s)); cbn [Z.ltb Z.compare];
          cbv iota; lia. }
      destruct (String.prefix old (String c s)) eqn:Hp.
      * apply prefix_length in Hp. cbn [String.length] in Hp.
        assert (String.length old <> 0%nat) by (by destruct old).
        rewrite str_length_app, Nat2Z.inj_add, IH by lia.
        cbn [String.length]. rewrite Nat2Z.inj_succ.
        revert Hc1. generalize (strings.go_count old (String.length old - 1) s).
        intros X HX.
        destruct (Z.ltb_spec n 0), (Z.ltb_spec (n - 1) 0); lia.
      * cbn [String.length]. rewrite Nat2Z.inj_succ, IH by lia.
        destruct (Z.ltb_spec n 0); lia.
    + cbn [strings.go_replace strings.go_count String.length] in *.
      rewrite IH by lia. lia.
Qed.

Lemma go_replace_no_occurrence old new s :
  forall n, strings.go_count old 0 s = 0 ->
  strings.go_replace old new 0 n s = s.
Proof.
  induction s as [|c s IH]; intros n; [done|].
  cbn [strings.go_replace strings.go_count].
  destruct (String.prefix old (String c s)).
  - pose proof (go_count_nonneg old s (String.length old - 1)). lia.
  - intros Hc. destruct (n =? 0); [done|]. by rewrite IH.
Qed.

(** X16. In the plain case-sensitive mode, with a non-empty pattern,
    [ReplaceText] returns no error and a count that is not negative.  When
    max_replacements is not 0 the count is the number of replacements
    made: the result is longer than the content by count times the
    difference of the lengths of replacement and pattern, and a count of
    0 means the content came back unchanged.  When max_replacements is 0
    nothing is replaced, and the count returned is nevertheless the
    number of occurrences. *)
Theorem ReplaceText_plain_count (ToLower : string -> string)
    content find replace maxReplacements :
  find <> "" ->
  exists result count,
    ReplaceText ToLower content find replace false true false maxReplacements
      = Some (result, count, None) /\
    0 <= count /\
    (maxReplacements <> 0 ->
     slen result = slen content + count * (slen replace - slen find) /\
     (count = 0 -> result = content)) /\
    (maxReplacements = 0 ->
     result = content /\ count = strings.Count content find).
Proof.
  intros Hfind. unfold ReplaceText.
  rewrite decide_False by done. cbn [negb andb]. cbv zeta.
  eexists _, _. split; [done|].
  pose proof (go_count_nonneg find content 0) as Hc.
  unfold strings.Count, strings.Replace.
  split; [|split].
  - destruct ((maxReplacements >? 0) && _) eqn:Hm; [|done].
    apply andb_true_iff in Hm as [Hm _]. rewrite Z.gtb_ltb in Hm.
    apply Z.ltb_lt in Hm. lia.
  - intros Hmax. split.
    + destruct (String.eqb_spec find replace) as [->|Hne].
      { rewrite Z.sub_diag. lia. }
      rewrite go_replace_length by (done || lia).
      destruct (Z.gtb_spec maxReplacements 0);
        destruct (Z.gtb_spec (strings.go_count find 0 content) maxReplacements);
        destruct (Z.ltb_spec maxReplacements 0); cbn [andb]; lia.
    + destruct (String.eqb_spec find replace); [done|].
      intros Hzero. apply go_replace_no_occurrence.
      destruct (Z.gtb_spec maxReplacements 0);
        destruct (Z.gtb_spec (strings.go_count find 0 content) maxReplacements);
        cbn [andb] in Hzero; lia.
  - intros ->. cbn [Z.gtb Z.compare andb]. split; [|done].
    destruct (String.eqb find replace); [done|]. by destruct content.
Qed.

Lemma ReplaceText_plain_count_witness :
  ("a" : string) <> "" /\
  ReplaceText (fun s => s) "banana" "a" "oo" false true false 2
    = Some ("boonoona"%string, 2, None) /\
  ReplaceText (fun s => s) "banana" "a" "oo" false true false 0
    = Some ("banana"%string, 3, None) /\
  exists result count,
    ReplaceText (fun s => s) "banana" "a" "oo" false true false 2
      = Some (result, count, None) /\ 0 <= count.
Proof.
  split; [done|]. split; [reflexivity|]. split; [reflexivity|].
  destruct (ReplaceText_plain_count (fun s => s) "banana" "a" "oo" 2)
    as (result & count & Hr & Hc & _); [done|].
  by exists result, count.
Defined.

(** ** String utilities *)

Lemma substring_0_split (s : string) :
  forall k : nat, (k <= String.length s)%nat ->
  String.length (String.substring 0 k s) = k /\
  exists rest, s = String.substring 0 k s +:+ rest.
Proof.
  induction s as [|c s IH]; intros [|k] Hk; cbn in Hk; try lia.
  - split; [done|by exists EmptyString].
  - split; [done|by exists (String c s)].
  - destruct (IH k) as [Hl [rest Hr]]; [lia|]. cbn [String.substring].
    split; [cbn; by rewrite Hl|]. exists rest.
    change (String c (String.substring 0 k s) +:+ rest)
      with (String c (String.substring 0 k s +:+ rest)). by rewrite <- Hr.
Qed.

Lemma str_to_Some s k :
  0 <= k <= slen s ->
  exists head, str_to s k = Some head /\ slen head = k /\
               String.prefix head s = true.
Proof.
  intros Hk. unfold str_to, slen in *.
  destruct (Z.leb_spec 0 k); [|lia].
  destruct (Z.leb_spec k (Z.of_nat (String.length s))); [|lia].
  destruct (substring_0_split s (Z.to_nat k)) as [Hl [rest Hr]]; [lia|].
  eexists. split; [done|]. split; [lia|].
  apply prefix_app. by exists rest.
Qed.

(** X17. [TruncateString] gives the string back when it fits.  When the
    string is longer than [maxLength >= 0] the result has exactly
    [maxLength] bytes: a prefix of the string followed by three dots
    when [maxLength > 3], a bare prefix otherwise.  With a negative
    [maxLength] the slice is out of range and the function faults. *)
Theorem TruncateString_length (str : string) (maxLength : Z) :
  is_int maxLength ->
  (slen str <= maxLength -> TruncateString str maxLength = Some str) /\
  (0 <= maxLength < slen str ->
   exists head,
     String.prefix head str = true /\
     TruncateString str maxLength =
       Some (if maxLength <=? 3 then head else head +:+ "...") /\
     slen (if maxLength <=? 3 then head else head +:+ "...") = maxLength) /\
  (maxLength < 0 -> TruncateString str maxLength = None).
Proof.
  intros Hint. unfold TruncateString. split; [|split].
  - intros Hfit. by destruct (Z.leb_spec (slen str) maxLength); [|lia].
  - intros Hlong. destruct (Z.leb_spec (slen str) maxLength); [lia|].
    destruct (Z.leb_spec maxLength 3).
    + destruct (str_to_Some str maxLength) as (head & -> & Hl & Hp); [lia|].
      by exists head.
    + rewrite wrap64_int by (unfold is_int in *; lia).
      destruct (str_to_Some str (maxLength - 3)) as (head & -> & Hl & Hp);
        [lia|].
      exists head. split; [done|]. split; [done|].
      unfold slen in *. rewrite str_length_app. cbn [String.length]. lia.
  - intros Hneg. assert (0 <= slen str) by (unfold slen; lia).
    destruct (Z.leb_spec (slen str) maxLength); [lia|].
    destruct (Z.leb_spec maxLength 3); [|lia].
    unfold str_to. by destruct (Z.leb_spec 0 maxLength); [lia|].
Qed.

Lemma TruncateString_length_witness :
  is_int 5 /\
  TruncateString "hello world" 5 = Some "he..."%string /\
  TruncateString "hello world" 2 = Some "he"%string /\
  TruncateString "hello world" (-1) = None.
Proof.
  assert (Hint : is_int 5) by (unfold is_int; lia).
  split; [exact Hint|]. split; [reflexivity|]. split; [reflexivity|].
  assert (Hneg : is_int (-1)) by (unfold is_int; lia).
  apply (proj2 (proj2 (TruncateString_length "hello world" (-1) Hneg))). lia.
Defined.

Lemma ReplaceAll_byte_empty (d : ascii) (s : string) :
  strings.ReplaceAll s (String d "") "" = without_byte d s.
Proof.
  unfold strings.ReplaceAll, strings.Replace. cbn [String.eqb].
  induction s as [|c s IH]; [done|].
  rewrite go_replace_step by lia. rewrite prefix_single.
  cbn [without_byte String.length Nat.sub]. rewrite Ascii.eqb_sym.
  destruct (Ascii.eqb c d).
  - rewrite (go_replace_neg _ _ s 0 (-1 - 1) (-1)) by lia. by rewrite IH.
  - by rewrite IH.
Qed.

(** X18. [SanitizeCommand] returns the command with every byte 0, 1, 2
    and 3 left out and every other byte kept, in order; sanitizing twice
    changes nothing more. *)
Theorem SanitizeCommand_removes_control_bytes (command : string) :
  SanitizeCommand command = without_control_bytes command /\
  SanitizeCommand (SanitizeCommand command) = SanitizeCommand command.
Proof.
  assert (H : forall s, SanitizeCommand s = without_control_bytes s).
  { intros s. unfold SanitizeCommand. rewrite !ReplaceAll_byte_empty.
    induction s as [|c s IH]; [done|].
    cbn [without_byte without_control_bytes].
    destruct (Ascii.eqb_spec c "000") as [->|H0]; [done|].
    cbn [without_byte].
    destruct (Ascii.eqb_spec c "001") as [->|H1]; [done|].
    cbn [without_byte].
    destruct (Ascii.eqb_spec c "002") as [->|H2]; [done|].
    cbn [without_byte orb].
    destruct (Ascii.eqb_spec c "003") as [->|H3]; [done|].
    by rewrite IH. }
  split; [apply H|]. rewrite !H.
  induction command as [|c s IH]; [done|]. cbn [without_control_bytes].
  destruct (_ || _) eqn:Hc; [done|].
  cbn [without_control_bytes]. by rewrite Hc, IH.
Qed.

(** ** Blocked commands *)

Lemma substring_app_front (p b : string) :
  String.substring 0 (String.length p) (p +:+ b) = p.
Proof.
  induction p as [|c p IH]; [cbn; by destruct b|].
  change (String c p +:+ b) with (String c (p +:+ b)).
  cbn [String.length String.substring]. by rewrite IH.
Qed.

Lemma substring_app_mid (a p b : string) :
  String.substring (String.length a) (String.length p) (a +:+ p +:+ b) = p.
Proof.
  induction a as [|c a IH]; [exact (substring_app_front p b)|].
  change (String c a +:+ p +:+ b) with (String c (a +:+ p +:+ b)).
  cbn [String.length String.substring]. apply IH.
Qed.

Lemma substring_split (s : string) :
  forall i k : nat, (i + k <= String.length s)%nat ->
  exists a b, s = a +:+ String.substring i k s +:+ b /\ String.length a = i.
Proof.
  induction s as [|c s IH]; intros i k Hik.
  - cbn in Hik. assert (i = 0%nat) as -> by lia.
    assert (k = 0%nat) as -> by lia. by exists EmptyString, EmptyString.
  - destruct i as [|i].
    + destruct (substring_0_split (String c s) k) as [_ [rest Hr]]; [lia|].
      by exists EmptyString, rest.
    + cbn in Hik. destruct (IH i k) as (a & b & Hs & Hl); [lia|].
      exists (String c a), b. cbn [String.substring String.length].
      split; [|by rewrite Hl].
      change (String c a +:+ String.substring i k s +:+ b)
        with (String c (a +:+ String.substring i k s +:+ b)).
      by rewrite <- Hs.
Qed.

Lemma indexOf_from_found (text pattern : string) (turns : nat) :
  forall i : nat,
  indexOf_from turns i text pattern <> -1 ->
  exists j : nat, (i <= j < i + turns)%nat /\
    String.substring j (String.length pattern) text = pattern.
Proof.
  induction turns as [|turns IH]; intros i H; [done|].
  cbn [indexOf_from] in H.
  destruct (String.eqb_spec
              (String.substring i (String.length pattern) text) pattern)
    as [Heq|Hne].
  - exists i. split; [lia|done].
  - destruct (IH (S i) H) as (j & Hj & Hs). exists j. split; [lia|done].
Qed.

Lemma indexOf_from_finds (text pattern : string) (turns : nat) :
  forall i j : nat, (i <= j < i + turns)%nat ->
  String.substring j (String.length pattern) text = pattern ->
  0 <= indexOf_from turns i text pattern <= Z.of_nat j.
Proof.
  induction turns as [|turns IH]; intros i j Hj Hs; [lia|].
  cbn [indexOf_from].
  destruct (String.eqb_spec
              (String.substring i (String.length pattern) text) pattern)
    as [Heq|Hne]; [lia|].
  assert (i <> j) by (intros ->; done).
  assert (Hj' : (S i <= j < S i + turns)%nat) by lia.
  pose proof (IH (S i) j Hj' Hs). lia.
Qed.

Lemma indexOf_occurs (text pattern : string) :
  indexOf text pattern <> -1 <->
  exists a b, text = a +:+ pattern +:+ b.
Proof.
  unfold indexOf, slen. split.
  - destruct (Z.leb_spec (Z.of_nat (String.length pattern))
                (Z.of_nat (String.length text))) as [Hle|]; [|done].
    intros H. apply indexOf_from_found in H as (j & Hj & Hs).
    destruct (substring_split text j (String.length pattern))
      as (a & b & Ht & _); [lia|].
    exists a, b. by rewrite Hs in Ht.
  - intros (a & b & ->). rewrite !str_length_app.
    destruct (Z.leb_spec (Z.of_nat (String.length pattern))
                (Z.of_nat (String.length a +
                   (String.length pattern + String.length b))));
      [|lia].
    pose proof (indexOf_from_finds (a +:+ pattern +:+ b) pattern
      (S (String.length a + (String.length pattern + String.length b)
          - String.length pattern)) 0 (String.length a)) as Hf.
    rewrite substring_app_mid in Hf. specialize (Hf ltac:(lia) eq_refl). lia.
Qed.

Lemma contains_occurs (text pattern : string) :
  contains text pattern = true <->
  exists a b, text = a +:+ pattern +:+ b.
Proof.
  unfold contains. rewrite andb_true_iff, !orb_true_iff, negb_true_iff.
  rewrite Z.eqb_neq, Z.leb_le. unfold slen. split.
  - intros [Hlen [[[Heq|Hpre]|Hsuf]|Hidx]].
    + apply String.eqb_eq in Heq as ->. exists EmptyString, EmptyString.
      by rewrite str_app_nil_r.
    + apply String.eqb_eq in Hpre.
      destruct (substring_split text 0 (String.length pattern))
        as (a & b & Ht & _); [lia|].
      exists a, b. by rewrite Hpre in Ht.
    + apply String.eqb_eq in Hsuf.
      destruct (substring_split text
                  (String.length text - String.length pattern)
                  (String.length pattern)) as (a & b & Ht & _); [lia|].
      exists a, b. by rewrite Hsuf in Ht.
    + by apply indexOf_occurs.
  - intros Hocc. split.
    + destruct Hocc as (a & b & ->). rewrite !str_length_app. lia.
    + right. by apply indexOf_occurs.
Qed.

(** X19. [contains text pattern] holds exactly when [pattern] occurs in
    [text] as a run of consecutive bytes; the three tests made before the
    search (equality, prefix, suffix) never change the answer, which is
    that of [indexOf] alone. *)
Theorem contains_is_substring (text pattern : string) :
  (contains text pattern = true <->
   exists a b, text = a +:+ pattern +:+ b) /\
  contains text pattern = negb (indexOf text pattern =? -1).
Proof.
  split; [apply contains_occurs|].
  apply eq_true_iff_eq. rewrite contains_occurs, <- indexOf_occurs.
  by rewrite negb_true_iff, Z.eqb_neq.
Qed.

(** X20. A command is blocked exactly when one of the blocked patterns
    occurs in it as a substring, anywhere and not only as the command
    word; an empty pattern in the list blocks every command. *)
Theorem IsCommandBlocked_substring (instance : config.ServerConfig)
    (command : string) :
  (IsCommandBlocked instance command = true <->
   exists blocked, blocked ∈ config.BlockedCommands instance /\
     exists a b, command = a +:+ blocked +:+ b) /\
  (("" : string) ∈ config.BlockedCommands instance ->
   IsCommandBlocked instance command = true).
Proof.
  assert (Hiff : IsCommandBlocked instance command = true <->
    exists blocked, blocked ∈ config.BlockedCommands instance /\
      exists a b, command = a +:+ blocked +:+ b).
  { unfold IsCommandBlocked. rewrite existsb_exists.
    split; intros (blocked & Hin & Hc); exists blocked.
    - split; [by apply list_elem_of_In|by apply contains_occurs].
    - split; [by apply list_elem_of_In|by apply contains_occurs]. }
  split; [exact Hiff|]. intros Hempty. apply Hiff.
  exists EmptyString. split; [done|]. exists EmptyString, command. done.
Qed.


(** ** Allowed directories *)

Lemma existsb_eqb_elem (dir : string) (dirs : list string) :
  existsb (fun existing => String.eqb existing dir) dirs = true <->
  dir ∈ dirs.
Proof.
  rewrite existsb_exists. split.
  - intros (x & Hin & Heq). apply String.eqb_eq in Heq as ->.
    by apply list_elem_of_In.
  - intros Hin. exists dir. split; [by apply list_elem_of_In|].
    apply String.eqb_refl.
Qed.

Lemma set_allowed_same (instance : config.ServerConfig) :
  set_allowed instance (config.AllowedDirectories instance) = instance.
Proof. by destruct instance. Qed.

Lemma remove_first_split (dir : string) (dirs : list string) :
  match remove_first dir dirs with
  | Some dirs' =>
      exists l1 l2, dirs = l1 ++ dir :: l2 /\ dirs' = l1 ++ l2 /\ dir ∉ l1
  | None => dir ∉ dirs
  end.
Proof.
  induction dirs as [|existing rest IH]; cbn [remove_first].
  - apply not_elem_of_nil.
  - destruct (String.eqb_spec existing dir) as [->|Hne].
    + exists [], rest. split; [done|]. split; [done|apply not_elem_of_nil].
    + destruct (remove_first dir rest) as [rest'|]; cbn.
      * destruct IH as (l1 & l2 & -> & -> & Hnot).
        exists (existing :: l1), l2. split; [done|]. split; [done|].
        apply not_elem_of_cons. split; [congruence|done].
      * apply not_elem_of_cons. split; [congruence|done].
Qed.






(** ** The allow-list and the sandbox *)

Lemma allowed_in_cons w (a d : string) (rest : list string) :
  allowed_in w a (d :: rest) =
    match allowed_in w a [d] with
    | Some false => allowed_in w a rest
    | r => r
    end.
Proof.
  cbn [allowed_in]. destruct (filepath.Abs w d) as [ab|]; [|done].
  by destruct (IsSubPath a ab) as [[]|].
Qed.

Lemma allowed_in_app w (a : string) (l1 l2 : list string) :
  allowed_in w a (l1 ++ l2) =
    match allowed_in w a l1 with
    | Some false => allowed_in w a l2
    | r => r
    end.
Proof.
  induction l1 as [|d l1 IH]; [done|].
  rewrite <- app_comm_cons, (allowed_in_cons w a d (l1 ++ l2)),
    (allowed_in_cons w a d l1), IH.
  by destruct (allowed_in w a [d]) as [[]|].
Qed.

Lemma allowed_in_refused w (a : string) (dirs : list string) :
  allowed_in w a dirs = Some false <->
  Forall (fun d => allowed_in w a [d] = Some false) dirs.
Proof.
  induction dirs as [|d dirs IH].
  - split; [intros _; apply Forall_nil_2|done].
  - rewrite (allowed_in_cons w a d dirs), Forall_cons, <- IH.
    destruct (allowed_in w a [d]) as [[]|]; intuition congruence.
Qed.

Lemma allowed_in_with_config w instance (a : string) (dirs : list string) :
  allowed_in (with_config w instance) a dirs = allowed_in w a dirs.
Proof. induction dirs as [|d dirs IH]; [done|]. cbn. by rewrite IH. Qed.

(** X25. Adding an allowed directory never takes access away: a path
    allowed before is allowed after, a path on which the check faulted
    still faults, and a path refused before is judged against the new
    directory alone. *)
Theorem AddAllowedDirectory_widens (w : World)
    (instance : config.ServerConfig) (dir path : string) :
  IsPathAllowed (with_config w (AddAllowedDirectory instance dir).1) path =
    match IsPathAllowed (with_config w instance) path with
    | Some false =>
        IsPathAllowed (with_config w (set_allowed instance [dir])) path
    | r => r
    end.
Proof.
  unfold IsPathAllowed.
  change (filepath.Abs (with_config w ?i) path) with (filepath.Abs w path).
  destruct (filepath.Abs w path) as [a|]; [|done].
  change (AllowedDirectories (with_config w ?i))
    with (config.AllowedDirectories i).
  rewrite !allowed_in_with_config. unfold AddAllowedDirectory.
  destruct (existsb _ _) eqn:Hex; cbn [fst set_allowed
    config.AllowedDirectories].
  - apply existsb_eqb_elem in Hex.
    destruct (allowed_in w a (config.AllowedDirectories instance))
      as [[]|] eqn:Hall; [done| |done].
    symmetry. apply allowed_in_refused in Hall.
    rewrite Forall_forall in Hall. by apply Hall.
  - apply allowed_in_app.
Qed.

(** X26. Removing an allowed directory never gives access: a path
    refused before the removal is refused after it. *)
Theorem RemoveAllowedDirectory_narrows (w : World)
    (instance : config.ServerConfig) (dir path : string) :
  IsPathAllowed (with_config w instance) path = Some false ->
  IsPathAllowed (with_config w (RemoveAllowedDirectory instance dir).1) path
    = Some false.
Proof.
  unfold IsPathAllowed.
  change (filepath.Abs (with_config w ?i) path) with (filepath.Abs w path).
  destruct (filepath.Abs w path) as [a|]; [|done].
  change (AllowedDirectories (with_config w ?i))
    with (config.AllowedDirectories i).
  rewrite !allowed_in_with_config. unfold RemoveAllowedDirectory.
  pose proof (remove_first_split dir (config.AllowedDirectories instance))
    as Hs.
  destruct (remove_first dir (config.AllowedDirectories instance))
    as [dirs'|]; [|done].
  destruct Hs as (l1 & l2 & -> & -> & _).
  cbn [fst set_allowed config.AllowedDirectories].
  rewrite !allowed_in_refused, !Forall_app, Forall_cons. tauto.
Qed.

Lemma RemoveAllowedDirectory_narrows_witness :
  let w := mkWorld ∅ ∅ ∅ 0 (Some "/home/u") [] in
  let instance :=
    config.mkServerConfig [] "/bin/sh" ["/srv"; "/home/u"] 1000 50 false in
  IsPathAllowed (with_config w instance) "/etc/passwd" = Some false /\
  IsPathAllowed (with_config w (RemoveAllowedDirectory instance "/srv").1)
    "/etc/passwd" = Some false.
Proof.
  intros w instance.
  assert (H : IsPathAllowed (with_config w instance) "/etc/passwd"
              = Some false) by reflexivity.
  split; [exact H|].
  exact (RemoveAllowedDirectory_narrows w instance "/srv" "/etc/passwd" H).
Defined.

(** ** Reading a file *)

Lemma SplitLines_len_pos (content : string) : 0 < len (SplitLines content).
Proof.
  unfold SplitLines, strings.Split, len.
  pose proof (go_split_nonempty strings.LF 0
    (strings.ReplaceAll (strings.ReplaceAll content strings.CRLF strings.LF)
       strings.CR strings.LF)) as Hne.
  destruct (strings.go_split _ _ _); [done|cbn [length]; lia].
Qed.

Lemma JoinLines_SplitLines (content : string) :
  JoinLines (SplitLines content) = normalize_spec content.
Proof.
  unfold SplitLines, JoinLines.
  rewrite (two_passes_normalize (String.length content) content) by done.
  apply Join_Split_single.
Qed.

Lemma read_page_whole (lines : list string) (length : Z) :
  length <= 0 -> 0 < len lines -> read_page lines 0 length = Some lines.
Proof.
  intros Hl Hpos. unfold read_page, slice_from.
  destruct (Z.ltb_spec 0 length); [lia|].
  destruct (Z.ltb_spec 0 (len lines)); [|lia].
  destruct (Z.leb_spec 0 (len lines)); [|lia]. done.
Qed.

Lemma read_page_window (lines : list string) (offset length : Z) :
  0 <= offset -> 0 < length -> is_int (offset + length) ->
  read_page lines offset length =
    Some (take (Z.to_nat length) (drop (Z.to_nat offset) lines)).
Proof.
  intros Ho Hl Hint. unfold read_page, slice_range.
  destruct (Z.ltb_spec 0 length); [|lia]. rewrite wrap64_int by done.
  destruct (Z.ltb_spec offset (len lines)) as [Hin|Hout].
  - destruct (Z.ltb_spec (len lines) (offset + length)) as [Hclip|Hfit].
    + destruct (Z.leb_spec 0 offset); [|lia].
      destruct (Z.leb_spec offset (len lines)); [|lia].
      destruct (Z.leb_spec (len lines) (len lines)); [|lia].
      cbn [andb]. f_equal. unfold len in *.
      rewrite !take_ge; [done| |]; rewrite length_drop; lia.
    + destruct (Z.leb_spec 0 offset); [|lia].
      destruct (Z.leb_spec offset (offset + length)); [|lia].
      destruct (Z.leb_spec (offset + length) (len lines)); [|lia].
      cbn [andb]. do 3 f_equal. lia.
  - unfold len in *. rewrite drop_ge by lia. by rewrite take_nil.
Qed.

(** X27. A read with the default paging (an offset of 1 or less, a
    length of 0 or less, no line numbers) of a file within the line
    limit returns the file's text with CR LF and lone CR turned into LF,
    not the bytes of the file. *)
Theorem HandleReadFile_whole_file (w : World) (cfg : config.ServerConfig)
    (path content : string) (offsetArg length : Z) :
  IsPathAllowed (with_config w cfg) path = Some true ->
  os.ReadFile w path = inl content ->
  is_int (offsetArg - 1) -> offsetArg <= 1 -> length <= 0 ->
  len (SplitLines content) <= config.FileReadLineLimit cfg ->
  HandleReadFile w cfg path offsetArg length false =
    NewToolResultText (normalize_spec content).
Proof.
  intros Hallowed Hread Hint Hoff Hlen Hlimit. unfold HandleReadFile.
  rewrite Hallowed, Hread, wrap64_int by done.
  assert (Hclamp : (if offsetArg - 1 <? 0 then 0 else offsetArg - 1) = 0).
  { destruct (Z.ltb_spec (offsetArg - 1) 0); lia. }
  rewrite Hclamp, read_page_whole
    by (done || apply SplitLines_len_pos).
  unfold apply_read_limit.
  destruct (Z.ltb_spec (config.FileReadLineLimit cfg)
              (len (SplitLines content))); [lia|].
  cbn [andb]. by rewrite JoinLines_SplitLines.
Qed.

Lemma HandleReadFile_whole_file_witness :
  let w := mkWorld {[ "/srv/a.txt"%string :=
                        String "a" (String "013" (String "010" "b")) ]}
             ∅ ∅ 0 (Some "/home/u"%string) [] in
  let cfg := config.mkServerConfig [] "/bin/sh" ["/srv"%string] 1000 50 false in
  HandleReadFile w cfg "/srv/a.txt" 1 0 false =
    NewToolResultText (String "a" (String "010" "b")).
Proof.
  intros w cfg.
  apply (HandleReadFile_whole_file w cfg "/srv/a.txt"
           (String "a" (String "013" (String "010" "b"))) 1 0).
  - reflexivity.
  - reflexivity.
  - unfold is_int. lia.
  - lia.
  - lia.
  - by vm_compute.
Defined.

(** X28. A read with a 1-based offset and a positive length returns the
    lines of the window [offset .. offset + length - 1] that exist, the
    window being cut at the end of the file and empty when it starts
    past it; this when the window fits the line limit. *)
Theorem HandleReadFile_page (w : World) (cfg : config.ServerConfig)
    (path content : string) (offsetArg length : Z) :
  IsPathAllowed (with_config w cfg) path = Some true ->
  os.ReadFile w path = inl content ->
  1 <= offsetArg -> 0 < length -> is_int (offsetArg - 1 + length) ->
  length <= config.FileReadLineLimit cfg ->
  HandleReadFile w cfg path offsetArg length false =
    NewToolResultText
      (JoinLines (take (Z.to_nat length)
                    (drop (Z.to_nat (offsetArg - 1)) (SplitLines content)))).
Proof.
  intros Hallowed Hread Hoff Hlen Hint Hlimit. unfold HandleReadFile.
  rewrite Hallowed, Hread.
  rewrite wrap64_int by (unfold is_int in *; lia).
  destruct (Z.ltb_spec (offsetArg - 1) 0); [lia|].
  rewrite read_page_window by (done || lia).
  unfold apply_read_limit.
  destruct (Z.ltb_spec (config.FileReadLineLimit cfg)
              (len (take (Z.to_nat length)
                      (drop (Z.to_nat (offsetArg - 1))
                         (SplitLines content))))) as [Hover|_]; [|done].
  unfold len in Hover. rewrite length_take in Hover. lia.
Qed.

Lemma HandleReadFile_page_witness :
  let w := mkWorld {[ "/srv/a.txt"%string :=
                        String "a" (String "010" (String "b"
                          (String "010" "c"))) ]}
             ∅ ∅ 0 (Some "/home/u"%string) [] in
  let cfg := config.mkServerConfig [] "/bin/sh" ["/srv"%string] 1000 50 false in
  HandleReadFile w cfg "/srv/a.txt" 2 5 false =
    NewToolResultText (String "b" (String "010" "c")).
Proof.
  intros w cfg.
  apply (HandleReadFile_page w cfg "/srv/a.txt"
           (String "a" (String "010" (String "b" (String "010" "c")))) 2 5).
  - reflexivity.
  - reflexivity.
  - lia.
  - lia.
  - unfold is_int. lia.
  - cbn. lia.
Defined.

(** X29. When the selected lines outnumber the configured line limit,
    the read returns the first [FileReadLineLimit] of them followed by
    the truncation marker as one more line; with a negative limit the
    slice is out of range and the default read of a readable file
    faults. *)
Theorem HandleReadFile_line_limit (w : World) (cfg : config.ServerConfig)
    (path content : string) :
  IsPathAllowed (with_config w cfg) path = Some true ->
  os.ReadFile w path = inl content ->
  config.FileReadLineLimit cfg < len (SplitLines content) ->
  HandleReadFile w cfg path 1 0 false =
    if 0 <=? config.FileReadLineLimit cfg
    then NewToolResultText
           (JoinLines (take (Z.to_nat (config.FileReadLineLimit cfg))
                         (SplitLines content) ++ [truncation_marker]))
    else Panic.
Proof.
  intros Hallowed Hread Hover. unfold HandleReadFile.
  rewrite Hallowed, Hread. change (wrap64 (1 - 1)) with 0.
  change (if 0 <? 0 then 0 else 0) with 0.
  rewrite read_page_whole by (done || apply SplitLines_len_pos).
  unfold apply_read_limit, slice_to.
  destruct (Z.ltb_spec (config.FileReadLineLimit cfg)
              (len (SplitLines content))); [|lia].
  destruct (Z.leb_spec 0 (config.FileReadLineLimit cfg)); [|done].
  destruct (Z.leb_spec (config.FileReadLineLimit cfg)
              (len (SplitLines content))); [|lia].
  done.
Qed.

Lemma HandleReadFile_line_limit_witness :
  let w := mkWorld {[ "/srv/a.txt"%string :=
                        String "a" (String "010" (String "b"
                          (String "010" "c"))) ]}
             ∅ ∅ 0 (Some "/home/u"%string) [] in
  let cfg := config.mkServerConfig [] "/bin/sh" ["/srv"%string] 2 50 false in
  HandleReadFile w cfg "/srv/a.txt" 1 0 false =
    NewToolResultText
      (String "a" (String "010" (String "b" (String "010"
         truncation_marker)))).
Proof.
  intros w cfg.
  apply (HandleReadFile_line_limit w cfg "/srv/a.txt"
           (String "a" (String "010" (String "b" (String "010" "c"))))).
  - reflexivity.
  - reflexivity.
  - by vm_compute.
Defined.
